(** * Kula mobile: the press / listen / send interaction controller

    Shallow embedding of [src/app/(tabs)/index.tsx] (the [App] component) and
    the properties of its natural-language specification.

    The component owns four React state cells and three kinds of handlers:
    the button handler [handlePress], the three speech callbacks registered on
    [Voice], and the continuations of its [async] functions after each
    [await].  An [async] function is embedded as a computation in a small
    monad that records the effects it performs in order and completes
    normally, abruptly (an exception), or by suspending at an [await].  The
    event loop is a step function on configurations: the committed React
    state, the pool of suspended continuations, and the current synchronous
    behaviour of the platform.

    One event is one task of the JavaScript event loop: a handler runs from
    its entry, or from the [await] it was parked at, to its next pending
    [await] or to its end, and React commits the setter calls it made before
    the next event is delivered.  The state-dependent parts of the JSX are
    embedded as [render], and the effect cleanup on unmount as [unmount]; the
    styles and the static parts of the screen are not modelled. *)

From Stdlib Require Import String Ascii List Bool Arith ZArith Lia.
Import ListNotations.
Open Scope string_scope.
Open Scope list_scope.

(** ** JavaScript values *)

(** The values [response.json()] can resolve with.  Numbers are modelled by
    integers: the controller only ever tests a number for truthiness. *)
#[local] Unset Elimination Schemes.
Inductive value : Type :=
| VNull
| VBool (b : bool)
| VNumber (n : Z)
| VString (s : string)
| VArray (items : list value)
| VObject (fields : list (string * value)).
#[local] Set Elimination Schemes.

(** Truthiness of a string, as in [if (recognizedText)]. *)
Definition truthy_string (s : string) : bool :=
  match s with
  | EmptyString => false
  | String _ _ => true
  end.

(** Truthiness of a value, as used by [||]. *)
Definition truthy (v : value) : bool :=
  match v with
  | VNull => false
  | VBool b => b
  | VNumber n => negb (Z.eqb n 0)
  | VString s => truthy_string s
  | VArray _ => true
  | VObject _ => true
  end.

(** [a || b] where [a] is the result of a property read: [None] stands for
    [undefined], which is falsy. *)
Definition js_or (a : option value) (b : value) : value :=
  match a with
  | Some v => if truthy v then v else b
  | None => b
  end.

(** Own-property lookup in an object literal. *)
Fixpoint lookup (key : string) (fields : list (string * value)) : option value :=
  match fields with
  | [] => None
  | (k, v) :: rest => if String.eqb k key then Some v else lookup key rest
  end.

(** Thrown values. *)
Inductive exn : Type :=
| TypeError (message : string)
| Failure (message : string).

(** ** Module-level constants (lines 19-20) *)

Definition SERVER_IP : string := "192.168.57.168".
Definition SERVER_URL : string := "http://" ++ SERVER_IP ++ ":3000/interact".

(** The two fixed reply strings of [sendToServer] (lines 112 and 116). *)
Definition FALLBACK_REPLY : string := "Sorry, I couldn't get a response.".
Definition CONNECTIVITY_ERROR : string :=
  "I'm having trouble connecting to my brain. Please check the server.".

(** ** The component state (lines 32-35) *)

Record State : Type := mkState {
  isLoading : bool;
  isListening : bool;
  aiReply : value;
  recognizedText : string
}.

(** The initial values passed to [useState]: false, false, and the empty
    string twice. *)
Definition initialState : State :=
  {| isLoading := false; isListening := false;
     aiReply := VString EmptyString; recognizedText := EmptyString |}.

(** The text of the transcript area (lines 138-142). *)
Definition transcriptText (st : State) : string :=
  if isListening st then "I'm listening..."
  else if truthy_string (recognizedText st) then recognizedText st
       else "Tap the button to speak".

(** ** The platform: speech recognition, fetch, console *)

(** What a promise-returning platform call does synchronously: it throws, or
    it returns a promise that is still pending. *)
Inductive reaction : Type :=
| Throws (e : exn)
| Pending.

(** How a pending promise settles. *)
Inductive settled (A : Type) : Type :=
| Rejected (e : exn)
| Resolved (a : A).
Arguments Rejected {A} e.
Arguments Resolved {A} a.

(** A fetch [Response]: the controller never reads [status]; it only calls
    [json()]. *)
Record Response : Type := mkResponse {
  status : nat;
  json : reaction
}.

(** The [init] argument of [fetch] (lines 106-110).  [JSON_stringify v] is the
    JSON text of [v]. *)
Inductive json_text : Type :=
| JSON_stringify (v : value).

Record RequestInit : Type := mkRequestInit {
  method : string;
  headers : list (string * string);
  body : json_text
}.

(** Payload of [onSpeechResults] and [onSpeechError]. *)
Record SpeechResultsEvent : Type := mkSpeechResultsEvent {
  results_value : option (list string)
}.

Record SpeechErrorDetail : Type := mkSpeechErrorDetail {
  code : option string;
  detail_message : option string
}.

Record SpeechErrorEvent : Type := mkSpeechErrorEvent {
  error : option SpeechErrorDetail
}.

(** Second argument of a [console.error] call. *)
Inductive logged : Type :=
| LoggedExn (e : exn)
| LoggedSpeechError (e : option SpeechErrorDetail).

(** Everything a handler does that is visible outside its own local
    variables, in program order: state setter calls, calls into the Speech
    Capability, the Reply Capability ([fetch] and [response.json()]), the
    console, and an exception escaping the handler. *)
Inductive effect : Type :=
| SetIsLoading (b : bool)
| SetIsListening (b : bool)
| SetAiReply (v : value)
| SetRecognizedText (s : string)
| Voice_start (locale : string)
| Voice_stop
| Fetch (url : string) (init : RequestInit)
| Response_json (response : Response)
| Console_log (message : string)
| Console_error (label : string) (what : logged)
| UnhandledRejection (e : exn).

(** A suspended [async] function: the [await] it is parked at, with the
    closure variables its continuation still needs. *)
Inductive task : Type :=
| AwaitVoiceStart                       (* startListening, line 68 *)
| AwaitVoiceStop (text : string)        (* handlePress at line 90, inside
                                           stopListening at line 77; [text] is
                                           the [recognizedText] of the render
                                           whose [handlePress] is running *)
| AwaitFetch                            (* sendToServer, line 106 *)
| AwaitResponseJson (response : Response). (* sendToServer, line 111 *)

(** ** The monad of handler bodies *)

Inductive completion (A : Type) : Type :=
| Normal (a : A)
| Abrupt (e : exn)
| Suspended (t : task).
Arguments Normal {A} a.
Arguments Abrupt {A} e.
Arguments Suspended {A} t.

Definition M (A : Type) : Type := (list effect * completion A)%type.

Definition ret {A} (a : A) : M A := ([], Normal a).

Definition bind {A B} (m : M A) (f : A -> M B) : M B :=
  match m with
  | (w, Normal a) => let (w', c) := f a in (w ++ w', c)
  | (w, Abrupt e) => (w, Abrupt e)
  | (w, Suspended t) => (w, Suspended t)
  end.

Declare Scope async_scope.
Delimit Scope async_scope with async.
Notation "x <- m ;; k" := (bind m (fun x => k))
  (at level 61, m at next level, right associativity) : async_scope.
Notation "m ;; k" := (bind m (fun _ => k))
  (at level 61, right associativity) : async_scope.
Open Scope async_scope.

Definition emit (e : effect) : M unit := ([e], Normal tt).
Definition throw {A} (e : exn) : M A := ([], Abrupt e).
Definition suspend {A} (t : task) : M A := ([], Suspended t).

(** [await call(...)]: the call is made; if it throws the exception is raised
    in place, otherwise the function parks at [t]. *)
Definition await_call {A} (call : effect) (r : reaction) (t : task) : M A :=
  emit call ;; match r with
               | Throws e => throw e
               | Pending => suspend t
               end.

(** Re-entry at an [await] whose promise has settled. *)
Definition resume {A} (r : settled A) : M A :=
  match r with
  | Rejected e => throw e
  | Resolved a => ret a
  end.

(** [try { body } catch (e) { handler e }].  A body parked at an [await]
    stays parked: its handler runs when the continuation is re-entered. *)
Definition try_catch {A} (body : M A) (handler : exn -> M A) : M A :=
  match body with
  | (w, Abrupt e) => let (w', c) := handler e in (w ++ w', c)
  | other => other
  end.

(** [try { body } finally { finalizer }]. *)
Definition try_finally {A} (body : M A) (finalizer : M unit) : M A :=
  match body with
  | (w, Suspended t) => (w, Suspended t)
  | (w, Normal a) =>
      let (w', c) := finalizer in
      (w ++ w', match c with
                | Normal _ => Normal a
                | Abrupt e => Abrupt e
                | Suspended t => Suspended t
                end)
  | (w, Abrupt e) =>
      let (w', c) := finalizer in
      (w ++ w', match c with
                | Normal _ => Abrupt e
                | Abrupt e' => Abrupt e'
                | Suspended t => Suspended t
                end)
  end.

Definition try_catch_finally {A} (body : M A) (handler : exn -> M A)
    (finalizer : M unit) : M A :=
  try_finally (try_catch body handler) finalizer.

(** State setters and console calls. *)
Definition setIsLoading (b : bool) : M unit := emit (SetIsLoading b).
Definition setIsListening (b : bool) : M unit := emit (SetIsListening b).
Definition setAiReply (v : value) : M unit := emit (SetAiReply v).
Definition setRecognizedText (s : string) : M unit := emit (SetRecognizedText s).
Definition console_log (s : string) : M unit := emit (Console_log s).
Definition console_error (label : string) (what : logged) : M unit :=
  emit (Console_error label what).

(** The platform's synchronous behaviour at the time a handler runs. *)
Record Platform : Type := mkPlatform {
  Voice_start_reacts : reaction;
  Voice_stop_reacts : reaction;
  fetch_reacts : reaction
}.

Definition calm : Platform :=
  {| Voice_start_reacts := Pending; Voice_stop_reacts := Pending;
     fetch_reacts := Pending |}.

(** ** The speech callbacks (lines 38-55) *)

(** [if (e.value && e.value.length > 0) setRecognizedText(e.value[0])]. *)
Definition onSpeechResults (e : SpeechResultsEvent) : M unit :=
  match results_value e with
  | Some (first :: _) => setRecognizedText first
  | Some [] => ret tt
  | None => ret tt
  end.

Definition onSpeechEnd : M unit :=
  setIsListening false ;;
  console_log "Speech listening has ended.".

Definition onSpeechError (e : SpeechErrorEvent) : M unit :=
  console_error "Speech Error:" (LoggedSpeechError (error e)) ;;
  setIsListening false.

(** ** startListening (lines 63-73) *)

(** The [try]/[catch] around [await Voice.start(...)]; [awaited] is the
    awaited expression, either the call itself or its settled promise when
    the function is re-entered. *)
Definition startListening_try (awaited : M unit) : M unit :=
  try_catch awaited
    (fun e =>
       console_error "Failed to start listening:" (LoggedExn e) ;;
       setIsListening false).

Definition startListening (p : Platform) : M unit :=
  setRecognizedText EmptyString ;;
  setAiReply (VString EmptyString) ;;
  setIsListening true ;;
  startListening_try
    (await_call (Voice_start "en-US") (Voice_start_reacts p) AwaitVoiceStart).

(** ** stopListening (lines 75-82) *)

Definition stopListening_try (awaited : M unit) : M unit :=
  try_catch awaited
    (fun e => console_error "Failed to stop listening:" (LoggedExn e)).

(** [park] is the continuation of the caller, which is suspended together
    with [stopListening] when [Voice.stop()] returns a pending promise. *)
Definition stopListening (p : Platform) (park : task) : M unit :=
  stopListening_try (await_call Voice_stop (Voice_stop_reacts p) park).

(** ** sendToServer (lines 100-121) *)

Definition dquote : string := String "034"%char EmptyString.

(** [data.reply]: reading a property of [null] throws; a primitive or an
    array has no [reply] property. *)
Definition get_reply (data : value) : M (option value) :=
  match data with
  | VNull => throw (TypeError "Cannot read properties of null (reading 'reply')")
  | VObject fields => ret (lookup "reply" fields)
  | VBool _ => ret None
  | VNumber _ => ret None
  | VString _ => ret None
  | VArray _ => ret None
  end.

Definition response_json (response : Response) : M value :=
  await_call (Response_json response) (json response)
    (AwaitResponseJson response).

(** The [try]/[catch]/[finally] of lines 105-120.  [fetched] is the awaited
    [fetch(...)] and [parsed] the awaited [response.json()].

    A setter call is embedded as returning normally: it records the new
    value, and rendering is React's business after the handler.  Whether
    React renders inside the setter or after the handler is not decided by
    this file; the state a handler leaves behind is the same either way.  The
    one case where a render inside [setAiReply] can throw into the [try] is a
    reply that React refuses as a child of [Text]: a JSON object, or an array
    holding one.  That case is outside this embedding; the properties of the
    success path are stated for replies that are valid children (see
    [valid_child] below). *)
Definition sendToServer_try (fetched : M Response)
    (parsed : Response -> M value) : M unit :=
  try_catch_finally
    (response <- fetched ;;
     data <- parsed response ;;
     reply <- get_reply data ;;
     setAiReply (js_or reply (VString FALLBACK_REPLY)))
    (fun error =>
       console_error "Network Error:" (LoggedExn error) ;;
       setAiReply (VString CONNECTIVITY_ERROR))
    (setIsLoading false).

Definition request (message : string) : RequestInit :=
  {| method := "POST";
     headers := [("Content-Type", "application/json")];
     body := JSON_stringify (VObject [("message", VString message)]) |}.

Definition sendToServer (p : Platform) (message : string) : M unit :=
  console_log ("Sending this to server: " ++ dquote ++ message ++ dquote) ;;
  setIsLoading true ;;
  setAiReply (VString EmptyString) ;;
  sendToServer_try
    (await_call (Fetch SERVER_URL (request message)) (fetch_reacts p) AwaitFetch)
    response_json.

(** ** handlePress (lines 85-98) *)

(** Lines 91-93.  [sendToServer] is called without [await]; it is the last
    statement of [handlePress], so its suspension or completion is that of
    the whole handler. *)
Definition handlePress_after_stop (p : Platform) (text : string) : M unit :=
  if truthy_string text then sendToServer p text else ret tt.

(** [st] is the state of the render that created this [handlePress]: the
    closure reads [isLoading], [isListening] and [recognizedText] from it,
    also after the [await]. *)
Definition handlePress (st : State) (p : Platform) : M unit :=
  if isLoading st then ret tt
  else if isListening st then
    stopListening p (AwaitVoiceStop (recognizedText st)) ;;
    handlePress_after_stop p (recognizedText st)
  else
    startListening p.

(** ** Continuations: re-entry of a suspended function *)

Definition continue_startListening (r : settled unit) : M unit :=
  startListening_try (resume r).

Definition continue_handlePress (p : Platform) (text : string)
    (r : settled unit) : M unit :=
  stopListening_try (resume r) ;;
  handlePress_after_stop p text.

Definition continue_fetch (r : settled Response) : M unit :=
  sendToServer_try (resume r) response_json.

Definition continue_json (response : Response) (r : settled value) : M unit :=
  sendToServer_try (ret response) (fun _ => resume r).

(** ** The event loop *)

Record Config : Type := mkConfig {
  store : State;
  pool : list task;
  platform : Platform
}.

Definition mount : Config :=
  {| store := initialState; pool := []; platform := calm |}.

(** What reaches the component from outside.  A settlement names the
    suspended function by its position in the pool. *)
Inductive event : Type :=
| Activation                                         (* onPress *)
| StartSettled (i : nat) (r : settled unit)          (* Voice.start promise *)
| StopSettled (i : nat) (r : settled unit)           (* Voice.stop promise *)
| FetchSettled (i : nat) (r : settled Response)      (* fetch promise *)
| JsonSettled (i : nat) (r : settled value)          (* response.json promise *)
| SpeechResults (e : SpeechResultsEvent)             (* Voice.onSpeechResults *)
| SpeechEnd                                          (* Voice.onSpeechEnd *)
| SpeechError (e : SpeechErrorEvent)                 (* Voice.onSpeechError *)
| PlatformChanged (p : Platform).

Definition apply_effect (st : State) (e : effect) : State :=
  match e with
  | SetIsLoading b =>
      {| isLoading := b; isListening := isListening st;
         aiReply := aiReply st; recognizedText := recognizedText st |}
  | SetIsListening b =>
      {| isLoading := isLoading st; isListening := b;
         aiReply := aiReply st; recognizedText := recognizedText st |}
  | SetAiReply v =>
      {| isLoading := isLoading st; isListening := isListening st;
         aiReply := v; recognizedText := recognizedText st |}
  | SetRecognizedText s =>
      {| isLoading := isLoading st; isListening := isListening st;
         aiReply := aiReply st; recognizedText := s |}
  | _ => st
  end.

(** The state React commits after a handler has run: its setter calls
    applied in order. *)
Definition commit (st : State) (w : list effect) : State :=
  fold_left apply_effect w st.

(** Removes the [i]-th suspended function from the pool. *)
Fixpoint take (i : nat) (ts : list task) {struct ts}
    : option (task * list task) :=
  match ts, i with
  | [], _ => None
  | t :: rest, O => Some (t, rest)
  | t :: rest, S j =>
      match take j rest with
      | Some (x, rest') => Some (x, t :: rest')
      | None => None
      end
  end.

(** Runs a handler to its completion or next [await]; [rest] is the pool
    without the function being re-entered. *)
Definition run_handler (c : Config) (rest : list task) (m : M unit)
    : Config * list effect :=
  let (w, r) := m in
  let w' := w ++ match r with
                 | Abrupt e => [UnhandledRejection e]
                 | _ => []
                 end in
  ({| store := commit (store c) w';
      pool := rest ++ match r with
                      | Suspended t => [t]
                      | _ => []
                      end;
      platform := platform c |}, w').

Definition step (c : Config) (ev : event) : Config * list effect :=
  match ev with
  | Activation =>
      run_handler c (pool c) (handlePress (store c) (platform c))
  | StartSettled i r =>
      match take i (pool c) with
      | Some (AwaitVoiceStart, rest) =>
          run_handler c rest (continue_startListening r)
      | _ => (c, [])
      end
  | StopSettled i r =>
      match take i (pool c) with
      | Some (AwaitVoiceStop text, rest) =>
          run_handler c rest (continue_handlePress (platform c) text r)
      | _ => (c, [])
      end
  | FetchSettled i r =>
      match take i (pool c) with
      | Some (AwaitFetch, rest) => run_handler c rest (continue_fetch r)
      | _ => (c, [])
      end
  | JsonSettled i r =>
      match take i (pool c) with
      | Some (AwaitResponseJson response, rest) =>
          run_handler c rest (continue_json response r)
      | _ => (c, [])
      end
  | SpeechResults e => run_handler c (pool c) (onSpeechResults e)
  | SpeechEnd => run_handler c (pool c) onSpeechEnd
  | SpeechError e => run_handler c (pool c) (onSpeechError e)
  | PlatformChanged p =>
      ({| store := store c; pool := pool c; platform := p |}, [])
  end.

(** A run: the events in order, with everything the handlers did. *)
Fixpoint exec (c : Config) (evs : list event) : Config * list effect :=
  match evs with
  | [] => (c, [])
  | ev :: rest =>
      let (c1, w1) := step c ev in
      let (c2, w2) := exec c1 rest in
      (c2, w1 ++ w2)
  end.

Definition run (c : Config) (evs : list event) : Config := fst (exec c evs).
Definition trace (c : Config) (evs : list event) : list effect := snd (exec c evs).

(** ** Measures on pools and traces *)

(** A suspended [sendToServer]: a Reply Capability call that has been made
    and has not settled. *)
Definition is_send (t : task) : bool :=
  match t with
  | AwaitFetch => true
  | AwaitResponseJson _ => true
  | AwaitVoiceStart => false
  | AwaitVoiceStop _ => false
  end.

Definition sends (ts : list task) : nat := length (filter is_send ts).

Definition is_fetch (e : effect) : bool :=
  match e with
  | Fetch _ _ => true
  | _ => false
  end.

(** The Reply Capability calls of a trace. *)
Definition reply_calls (w : list effect) : list effect := filter is_fetch w.

Definition is_unhandled (e : effect) : bool :=
  match e with
  | UnhandledRejection _ => true
  | _ => false
  end.

(** The [catch] block of [sendToServer] ran. *)
Definition is_network_error (e : effect) : bool :=
  match e with
  | Console_error label _ => String.eqb label "Network Error:"
  | _ => false
  end.

(** [data.reply] of a payload other than [null]. *)
Definition reply_field (data : value) : option value :=
  match data with
  | VObject fields => lookup "reply" fields
  | _ => None
  end.

(** The three states of the specification's state machine. *)
Definition Idle (st : State) : Prop :=
  isLoading st = false /\ isListening st = false.
Definition Listening (st : State) : Prop :=
  isLoading st = false /\ isListening st = true.
Definition Sending (st : State) : Prop :=
  isLoading st = true.

(** A run in which no Reply Capability call is made while another one is
    outstanding. *)
Fixpoint exclusive (c : Config) (evs : list event) : bool :=
  match evs with
  | [] => true
  | ev :: rest =>
      let (c', w) := step c ev in
      (Nat.eqb (sends (pool c)) 0
       || match reply_calls w with [] => true | _ :: _ => false end)
      && exclusive c' rest
  end.

(** ** Scenarios *)

Definition ok200 : Response := {| status := 200; json := Pending |}.
Definition err500 : Response := {| status := 500; json := Pending |}.
Definition heard (l : list string) : event :=
  SpeechResults {| results_value := Some l |}.
Definition replying (s : string) : value := VObject [("reply", VString s)].

(** ** Vocabulary of the properties *)

(** A configuration in the middle of a send: the transcript was sent and the
    fetch has not settled. *)
Definition sending_hi : Config :=
  run mount [Activation; StartSettled 0 (Resolved tt); heard ["hi"];
             Activation; StopSettled 0 (Resolved tt); SpeechEnd].

(** The state right after [startListening] has reset its fields. *)
Definition cleared (listening : bool) : State :=
  {| isLoading := false; isListening := listening;
     aiReply := VString EmptyString; recognizedText := EmptyString |}.

Definition start_throws : Platform :=
  {| Voice_start_reacts := Throws (Failure "recognizer unavailable");
     Voice_stop_reacts := Pending; fetch_reacts := Pending |}.

(** What [stopListening] has logged by the time it returns. *)
Definition stop_log (r : settled unit) : list effect :=
  match r with
  | Rejected e => [Console_error "Failed to stop listening:" (LoggedExn e)]
  | Resolved _ => []
  end.

(** A session that is listening and has heard nothing yet, and one that has
    heard a transcript. *)
Definition listening_silent : Config :=
  run mount [Activation; StartSettled 0 (Resolved tt)].
Definition listening_hi : Config :=
  run mount [Activation; StartSettled 0 (Resolved tt); heard ["hi"]].

(** The run in which a second listening session is started while the [stop]
    of the first one is still pending: the reply to the first transcript
    arrives during the second session. *)
Definition reply_during_second_session : list event :=
  [Activation; StartSettled 0 (Resolved tt); heard ["hi"];
   Activation; SpeechEnd;
   Activation; StopSettled 0 (Resolved tt); StartSettled 0 (Resolved tt);
   FetchSettled 0 (Resolved ok200); JsonSettled 0 (Resolved (replying "A"))].

(** A result is delivered before the promise of [Voice.start] rejects. *)
Definition result_before_start_rejects : list event :=
  [Activation; heard ["hi"]; StartSettled 0 (Rejected (Failure "denied"))].

(** The [stop] of a first session is still pending when a second session is
    started from Idle; [stop] then resolves and the transcript is sent, and
    only then the [start] of the second session rejects. *)
Definition send_before_start_rejects : list event :=
  [Activation; StartSettled 0 (Resolved tt); heard ["hi"];
   Activation; SpeechEnd;
   Activation; StopSettled 0 (Resolved tt);
   StartSettled 0 (Rejected (Failure "denied"))].

(** The [catch] and [finally] blocks of [sendToServer], as effects. *)
Definition caught (e : exn) : list effect :=
  [Console_error "Network Error:" (LoggedExn e);
   SetAiReply (VString CONNECTIVITY_ERROR);
   SetIsLoading false].

Definition null_reply_error : exn :=
  TypeError "Cannot read properties of null (reading 'reply')".

(** A configuration whose send has reached [await response.json()]. *)
Definition parsing_hi : Config :=
  run sending_hi [FetchSettled 0 (Resolved ok200)].

Definition json_unreadable : Response :=
  {| status := 200; json := Throws (TypeError "Already read") |}.

Definition fetch_throws : Platform :=
  {| Voice_start_reacts := Pending; Voice_stop_reacts := Pending;
     fetch_reacts := Throws (TypeError "Network request failed") |}.

(** What one step can do to the loading flag and to the number of
    outstanding Reply Capability calls. *)
Inductive send_change (c c' : Config) (w : list effect) : Prop :=
| send_untouched :
    isLoading (store c') = isLoading (store c) ->
    sends (pool c') = sends (pool c) ->
    reply_calls w = [] ->
    send_change c c' w
| send_started :
    isLoading (store c') = true ->
    sends (pool c') = S (sends (pool c)) ->
    reply_calls w <> [] ->
    send_change c c' w
| send_failed_at_once :
    isLoading (store c') = false ->
    sends (pool c') = sends (pool c) ->
    reply_calls w <> [] ->
    send_change c c' w
| send_settled :
    isLoading (store c') = false ->
    S (sends (pool c')) = sends (pool c) ->
    reply_calls w = [] ->
    send_change c c' w.

(** The flag tracks the one outstanding send. *)
Definition tracks (c : Config) : Prop :=
  sends (pool c) <= 1 /\
  (isLoading (store c) = true <-> sends (pool c) = 1).

(** The scenario of the specification: one listening session, one send. *)
Definition one_session : list event :=
  [Activation; StartSettled 0 (Resolved tt); heard ["I feel tired"];
   Activation; StopSettled 0 (Resolved tt); SpeechEnd;
   FetchSettled 0 (Resolved ok200)].

(** Two activations while [Voice.stop()] is pending park [handlePress]
    twice, and each continuation sends the transcript. *)
Definition double_activation : list event :=
  [Activation; StartSettled 0 (Resolved tt); heard ["I feel tired"];
   Activation; Activation;
   StopSettled 0 (Resolved tt); StopSettled 0 (Resolved tt); SpeechEnd;
   FetchSettled 0 (Resolved ok200);
   JsonSettled 1 (Resolved (replying "Let's talk about that."))].

Definition is_text_reset (e : effect) : bool :=
  match e with
  | SetRecognizedText EmptyString => true
  | _ => false
  end.

Definition is_reply_reset (e : effect) : bool :=
  match e with
  | SetAiReply (VString EmptyString) => true
  | _ => false
  end.

Definition is_voice_start (e : effect) : bool :=
  match e with
  | Voice_start _ => true
  | _ => false
  end.

(** The kinds of step, by the resets they perform. *)
Inductive reset_kind (ev : event) (w : list effect) : Prop :=
| resets_nothing :
    existsb is_text_reset w = false ->
    existsb is_reply_reset w = false ->
    reset_kind ev w
| resets_both_for_new_session :
    ev = Activation ->
    existsb is_voice_start w = true ->
    existsb is_text_reset w = true ->
    existsb is_reply_reset w = true ->
    reset_kind ev w
| resets_reply_for_send :
    existsb is_fetch w = true ->
    existsb is_voice_start w = false ->
    existsb is_text_reset w = false ->
    existsb is_reply_reset w = true ->
    reset_kind ev w
| hears_empty_candidate :
    (exists later, ev = heard (EmptyString :: later)) ->
    existsb is_text_reset w = true ->
    existsb is_reply_reset w = false ->
    reset_kind ev w.

(** The run of [double_activation] up to the arrival of the first reply,
    with the second [handlePress] still parked at [stop]. *)
Definition reply_before_second_send : list event :=
  [Activation; StartSettled 0 (Resolved tt); heard ["I feel tired"];
   Activation; Activation;
   StopSettled 0 (Resolved tt); SpeechEnd;
   FetchSettled 1 (Resolved ok200);
   JsonSettled 1 (Resolved (replying "Let's talk about that."))].

(** ** The rendered screen (lines 123-165) *)

(** What the button shows: the spinner, or a text. *)
Inductive ButtonContent : Type :=
| ActivityIndicator
| ButtonText (label : string).

(** What React accepts as a child of [Text] (line 161): strings, numbers,
    booleans and [null], and arrays of such; a JSON object is refused, and
    React throws while rendering it. *)
Fixpoint valid_child (v : value) : bool :=
  match v with
  | VObject _ => false
  | VArray items => forallb valid_child items
  | VNull => true
  | VBool _ => true
  | VNumber _ => true
  | VString _ => true
  end.

(** The value line 112 passes to [setAiReply] when [response.json()] settles
    with [r] and the read of [data.reply] does not throw; a settlement is
    renderable when that value is a valid child. *)
Definition renderable_settlement (r : settled value) : bool :=
  match r with
  | Rejected _ => true
  | Resolved data =>
      valid_child (js_or (reply_field data) (VString FALLBACK_REPLY))
  end.

(** An event is renderable when it is not a settlement of
    [response.json()] that hands [setAiReply] an invalid child. *)
Definition renderable_event (ev : event) : bool :=
  match ev with
  | JsonSettled _ r => renderable_settlement r
  | _ => true
  end.


(** The element tree [App] returns, in its parts that depend on the state:
    the transcript area, the [disabled] prop of the button, whether
    [styles.listeningButton] is in its style list, its content, and the
    branch of line 159: [None] for [null], [Some v] for the reply area
    with [v] as the child of its [Text].  React mounts that area only if
    [valid_child v]. *)
Record Screen : Type := mkScreen {
  transcript : string;
  button_disabled : bool;
  button_listening_style : bool;
  button_content : ButtonContent;
  reply_area : option value
}.

Definition render (st : State) : Screen :=
  {| transcript := transcriptText st;
     button_disabled := isLoading st;
     button_listening_style := isListening st;
     button_content :=
       if isLoading st then ActivityIndicator
       else ButtonText (if isListening st then "Send" else "Tap to Talk");
     reply_area := if truthy (aiReply st) then Some (aiReply st) else None |}.

(** ** Unmount: the effect cleanup (lines 57-59) *)

(** [Voice.destroy().then(Voice.removeAllListeners)].  What the cleanup does
    that is visible outside: the two calls into the Speech Capability, an
    exception thrown out of the cleanup function, and a rejected promise
    nobody handles. *)
Inductive cleanup_effect : Type :=
| Voice_destroy
| Voice_removeAllListeners
| Cleanup_throws (e : exn)
| Cleanup_unhandled (e : exn).

(** [p.then(f)] with a fulfilment handler only: [f] runs when [p] resolves,
    and the derived promise rejects when [p] rejects or [f] throws. *)
Definition promise_then {A B : Type} (p : settled A) (f : A -> exn + B)
    : settled B :=
  match p with
  | Rejected e => Rejected e
  | Resolved a =>
      match f a with
      | inl e => Rejected e
      | inr b => Resolved b
      end
  end.

(** The cleanup function itself: it calls [Voice.destroy()]; if that throws,
    [.then] is never reached and the exception leaves the cleanup. *)
Definition cleanup (destroy : reaction) : list cleanup_effect :=
  Voice_destroy ::
  match destroy with
  | Throws e => [Cleanup_throws e]
  | Pending => []
  end.

(** When the promise of [destroy] settles.  [remove] is what the call of
    [Voice.removeAllListeners] does: it throws, or it returns.  The promise
    returned by [.then] is dropped, so its rejection is unhandled. *)
Definition cleanup_settled (p : settled unit) (remove : option exn)
    : list cleanup_effect :=
  match p with
  | Resolved _ => [Voice_removeAllListeners]
  | Rejected _ => []
  end ++
  match promise_then p (fun _ => match remove with
                                 | Some e => inl e
                                 | None => inr tt
                                 end) with
  | Rejected e => [Cleanup_unhandled e]
  | Resolved _ => []
  end.

(** Everything an unmount does, from the cleanup to the settlement of
    [destroy]. *)
Definition unmount (destroy : reaction) (p : settled unit)
    (remove : option exn) : list cleanup_effect :=
  cleanup destroy ++
  match destroy with
  | Throws _ => []
  | Pending => cleanup_settled p remove
  end.

Definition is_removeAllListeners (e : cleanup_effect) : bool :=
  match e with
  | Voice_removeAllListeners => true
  | _ => false
  end.

Definition is_cleanup_failure (e : cleanup_effect) : bool :=
  match e with
  | Cleanup_throws _ => true
  | Cleanup_unhandled _ => true
  | _ => false
  end.

(** ** The shape of every step *)

Definition send_effects (message : string) : list effect :=
  [Console_log ("Sending this to server: " ++ dquote ++ message ++ dquote);
   SetIsLoading true; SetAiReply (VString EmptyString);
   Fetch SERVER_URL (request message)].

Definition with_sending (st : State) : State :=
  {| isLoading := true; isListening := isListening st;
     aiReply := VString EmptyString; recognizedText := recognizedText st |}.

Definition with_reply (st : State) (v : value) : State :=
  {| isLoading := false; isListening := isListening st;
     aiReply := v; recognizedText := recognizedText st |}.

Definition with_listening (st : State) (b : bool) : State :=
  {| isLoading := isLoading st; isListening := b;
     aiReply := aiReply st; recognizedText := recognizedText st |}.

Definition with_text (st : State) (t : string) : State :=
  {| isLoading := isLoading st; isListening := isListening st;
     aiReply := aiReply st; recognizedText := t |}.

(** Where [handlePress] gets past [await stopListening()]: in the activation
    itself when [Voice.stop()] throws, or when the promise of [stop]
    settles.  [pre] is what has been done up to there, [rest] the pool
    without the handler, [text] the transcript in its closure. *)
Inductive stop_origin (c : Config)
    : event -> list effect -> list task -> string -> Prop :=
| stop_threw (e : exn) :
    Listening (store c) ->
    Voice_stop_reacts (platform c) = Throws e ->
    stop_origin c Activation (Voice_stop :: stop_log (Rejected e)) (pool c)
                (recognizedText (store c))
| stop_settled (i : nat) (r : settled unit) (text : string)
               (rest : list task) :
    take i (pool c) = Some (AwaitVoiceStop text, rest) ->
    stop_origin c (StopSettled i r) (stop_log r) rest text.

(** The steps of the event loop, each with the configuration it leads to
    and the effects it performs. *)
Inductive step_case (c : Config) : event -> Config -> list effect -> Prop :=
| sc_ignored (ev : event) :
    step_case c ev c []
| sc_platform (p : Platform) :
    step_case c (PlatformChanged p)
      {| store := store c; pool := pool c; platform := p |} []
| sc_start_parked :
    Idle (store c) ->
    step_case c Activation
      {| store := cleared true; pool := pool c ++ [AwaitVoiceStart];
         platform := platform c |}
      [SetRecognizedText EmptyString; SetAiReply (VString EmptyString);
       SetIsListening true; Voice_start "en-US"]
| sc_start_threw (e : exn) :
    Idle (store c) ->
    step_case c Activation
      {| store := cleared false; pool := pool c; platform := platform c |}
      [SetRecognizedText EmptyString; SetAiReply (VString EmptyString);
       SetIsListening true; Voice_start "en-US";
       Console_error "Failed to start listening:" (LoggedExn e);
       SetIsListening false]
| sc_start_settled (i : nat) (rest : list task) :
    take i (pool c) = Some (AwaitVoiceStart, rest) ->
    step_case c (StartSettled i (Resolved tt))
      {| store := store c; pool := rest; platform := platform c |} []
| sc_start_rejected (i : nat) (rest : list task) (e : exn) :
    take i (pool c) = Some (AwaitVoiceStart, rest) ->
    step_case c (StartSettled i (Rejected e))
      {| store := with_listening (store c) false; pool := rest;
         platform := platform c |}
      [Console_error "Failed to start listening:" (LoggedExn e);
       SetIsListening false]
| sc_stop_parked :
    Listening (store c) ->
    step_case c Activation
      {| store := store c;
         pool := pool c ++ [AwaitVoiceStop (recognizedText (store c))];
         platform := platform c |}
      [Voice_stop]
| sc_stopped_silent (ev : event) (pre : list effect) (rest : list task) :
    stop_origin c ev pre rest EmptyString ->
    step_case c ev
      {| store := store c; pool := rest; platform := platform c |} pre
| sc_send_parked (ev : event) (pre : list effect) (rest : list task)
                 (text : string) :
    stop_origin c ev pre rest text ->
    text <> EmptyString ->
    step_case c ev
      {| store := with_sending (store c); pool := rest ++ [AwaitFetch];
         platform := platform c |}
      (pre ++ send_effects text)
| sc_send_threw (ev : event) (pre : list effect) (rest : list task)
                (text : string) (e : exn) :
    stop_origin c ev pre rest text ->
    text <> EmptyString ->
    step_case c ev
      {| store := with_reply (store c) (VString CONNECTIVITY_ERROR);
         pool := rest; platform := platform c |}
      (pre ++ send_effects text ++ caught e)
| sc_fetch_rejected (i : nat) (rest : list task) (e : exn) :
    take i (pool c) = Some (AwaitFetch, rest) ->
    step_case c (FetchSettled i (Rejected e))
      {| store := with_reply (store c) (VString CONNECTIVITY_ERROR);
         pool := rest; platform := platform c |}
      (caught e)
| sc_json_parked (i : nat) (rest : list task) (response : Response) :
    take i (pool c) = Some (AwaitFetch, rest) ->
    json response = Pending ->
    step_case c (FetchSettled i (Resolved response))
      {| store := store c; pool := rest ++ [AwaitResponseJson response];
         platform := platform c |}
      [Response_json response]
| sc_json_threw (i : nat) (rest : list task) (response : Response)
                (e : exn) :
    take i (pool c) = Some (AwaitFetch, rest) ->
    json response = Throws e ->
    step_case c (FetchSettled i (Resolved response))
      {| store := with_reply (store c) (VString CONNECTIVITY_ERROR);
         pool := rest; platform := platform c |}
      (Response_json response :: caught e)
| sc_json_failed (i : nat) (rest : list task) (response : Response)
                 (r : settled value) (e : exn) :
    take i (pool c) = Some (AwaitResponseJson response, rest) ->
    r = Rejected e \/ (r = Resolved VNull /\ e = null_reply_error) ->
    step_case c (JsonSettled i r)
      {| store := with_reply (store c) (VString CONNECTIVITY_ERROR);
         pool := rest; platform := platform c |}
      (caught e)
| sc_replied (i : nat) (rest : list task) (response : Response)
             (data : value) :
    take i (pool c) = Some (AwaitResponseJson response, rest) ->
    data <> VNull ->
    step_case c (JsonSettled i (Resolved data))
      {| store := with_reply (store c)
                    (js_or (reply_field data) (VString FALLBACK_REPLY));
         pool := rest; platform := platform c |}
      [SetAiReply (js_or (reply_field data) (VString FALLBACK_REPLY));
       SetIsLoading false]
| sc_heard (first : string) (later : list string) :
    step_case c (heard (first :: later))
      {| store := with_text (store c) first; pool := pool c;
         platform := platform c |}
      [SetRecognizedText first]
| sc_speech_end :
    step_case c SpeechEnd
      {| store := with_listening (store c) false; pool := pool c;
         platform := platform c |}
      [SetIsListening false; Console_log "Speech listening has ended."]
| sc_speech_error (e : SpeechErrorEvent) :
    step_case c (SpeechError e)
      {| store := with_listening (store c) false; pool := pool c;
         platform := platform c |}
      [Console_error "Speech Error:" (LoggedSpeechError (error e));
       SetIsListening false].

(** ** Vocabulary of the run invariants *)

Definition is_voice_stop (e : effect) : bool :=
  match e with
  | Voice_stop => true
  | _ => false
  end.

Definition is_speech_call (e : effect) : bool :=
  match e with
  | Voice_start _ => true
  | Voice_stop => true
  | _ => false
  end.

(** The Speech Capability calls of a trace. *)
Definition speech_calls (w : list effect) : list effect :=
  filter is_speech_call w.

Definition is_activation (ev : event) : bool :=
  match ev with
  | Activation => true
  | _ => false
  end.

(** A [handlePress] parked at [await stopListening()]. *)
Definition is_stop_task (t : task) : bool :=
  match t with
  | AwaitVoiceStop _ => true
  | _ => false
  end.

Definition stop_tasks (ts : list task) : nat := length (filter is_stop_task ts).

(** The transcript a result event reports: its first candidate. *)
Definition first_candidate (ev : event) : list string :=
  match ev with
  | SpeechResults e =>
      match results_value e with
      | Some (first :: _) => [first]
      | _ => []
      end
  | _ => []
  end.

(** The transcripts reported by the Speech Capability during a run. *)
Definition reported (evs : list event) : list string :=
  flat_map first_candidate evs.

(** A text is known when it is empty or was reported. *)
Definition known (H : list string) (t : string) : Prop :=
  t = EmptyString \/ In t H.

Definition task_known (H : list string) (t : task) : Prop :=
  match t with
  | AwaitVoiceStop text => known H text
  | _ => True
  end.

(** Every transcript the controller holds, in its state or in the closure
    of a parked [handlePress], is known. *)
Definition provenance (H : list string) (c : Config) : Prop :=
  known H (recognizedText (store c)) /\ Forall (task_known H) (pool c).

(** A Reply Capability call is a POST of a reported, non-empty transcript
    to the fixed endpoint. *)
Definition fetch_ok (H : list string) (e : effect) : Prop :=
  match e with
  | Fetch url init =>
      exists m, m <> EmptyString /\ In m H /\
                url = SERVER_URL /\ init = request m
  | _ => True
  end.

(** [aiReply] is the empty string or a truthy value. *)
Definition reply_blank_or_visible (st : State) : Prop :=
  aiReply st = VString EmptyString \/ truthy (aiReply st) = true.

(** * Properties *)

(** ** Basic facts about pools and committed state *)

Lemma config_eta (c : Config) :
  {| store := store c; pool := pool c; platform := platform c |} = c.
Proof. destruct c; reflexivity. Qed.

Lemma state_eta (st : State) :
  {| isLoading := isLoading st; isListening := isListening st;
     aiReply := aiReply st; recognizedText := recognizedText st |} = st.
Proof. destruct st; reflexivity. Qed.

(** The configuration after a handler that ran to completion with effects
    [w]. *)
Lemma run_handler_normal (c : Config) (rest : list task) (w : list effect) :
  run_handler c rest (w, Normal tt) =
  ({| store := commit (store c) w; pool := rest; platform := platform c |}, w).
Proof. unfold run_handler. rewrite !app_nil_r. reflexivity. Qed.

Lemma run_handler_suspended (c : Config) (rest : list task)
    (w : list effect) (t : task) :
  run_handler c rest (w, Suspended t) =
  ({| store := commit (store c) w; pool := rest ++ [t];
      platform := platform c |}, w).
Proof. unfold run_handler. rewrite !app_nil_r. reflexivity. Qed.

Lemma sends_app (a b : list task) : sends (a ++ b) = sends a + sends b.
Proof. unfold sends. rewrite filter_app, length_app. reflexivity. Qed.

Lemma take_sends (ts : list task) :
  forall i t rest,
    take i ts = Some (t, rest) ->
    sends ts = (if is_send t then 1 else 0) + sends rest.
Proof.
  induction ts as [|x ts IH]; intros i t rest H.
  - simpl in H. discriminate H.
  - destruct i as [|j]; simpl in H.
    + inversion H; subst. unfold sends; simpl.
      destruct (is_send t); reflexivity.
    + destruct (take j ts) as [[y rest']|] eqn:E; [|discriminate H].
      inversion H; subst. specialize (IH _ _ _ E).
      unfold sends in *; simpl. destruct (is_send x); simpl; rewrite IH;
        destruct (is_send t); lia.
Qed.

Lemma take_last (rest : list task) (t : task) :
  take (length rest) (rest ++ [t]) = Some (t, rest).
Proof.
  induction rest as [|x rest IH]; simpl.
  - reflexivity.
  - rewrite IH. reflexivity.
Qed.

Lemma exec_cons (c : Config) (ev : event) (rest : list event) :
  exec c (ev :: rest) =
  (fst (exec (fst (step c ev)) rest),
   snd (step c ev) ++ snd (exec (fst (step c ev)) rest)).
Proof.
  simpl. destruct (step c ev) as [c1 w1]. simpl.
  destruct (exec c1 rest); reflexivity.
Qed.

Lemma exec_app (evs1 evs2 : list event) :
  forall c,
    exec c (evs1 ++ evs2) =
    (fst (exec (fst (exec c evs1)) evs2),
     snd (exec c evs1) ++ snd (exec (fst (exec c evs1)) evs2)).
Proof.
  induction evs1 as [|ev evs1 IH]; intros c; simpl.
  - destruct (exec c evs2); reflexivity.
  - destruct (step c ev) as [c1 w1]. rewrite IH.
    destruct (exec c1 evs1) as [c2 w2]; simpl.
    destruct (exec c2 evs2) as [c3 w3]; simpl.
    rewrite app_assoc. reflexivity.
Qed.

(** ** The loading guard *)

Lemma activation_while_loading (c : Config) :
  isLoading (store c) = true -> step c Activation = (c, []).
Proof.
  intros H. unfold step, handlePress. rewrite H.
  unfold run_handler, ret, commit; simpl.
  rewrite app_nil_r, config_eta. reflexivity.
Qed.

(** C1. In every configuration whose [isLoading] is true, any number of
    activations in a row leaves the configuration as it is (the four state
    fields and the pool of suspended functions) and performs no effect at
    all: no Speech Capability call, no Reply Capability call, no setter. *)
Theorem loading_guard_noop (c : Config) (n : nat) :
  isLoading (store c) = true ->
  exec c (repeat Activation n) = (c, []).
Proof.
  intros H. induction n as [|n IH].
  - reflexivity.
  - change (repeat Activation (S n)) with (Activation :: repeat Activation n).
    rewrite exec_cons, (activation_while_loading c H); simpl.
    rewrite IH. reflexivity.
Qed.

Lemma loading_guard_noop_witness :
  isLoading (store sending_hi) = true /\
  exec sending_hi (repeat Activation 3) = (sending_hi, []).
Proof.
  split.
  - reflexivity.
  - apply (loading_guard_noop sending_hi 3). reflexivity.
Defined.

(** ** The speech callbacks *)

(** C8. [onSpeechResults] replaces [recognizedText] by the first candidate
    and touches nothing else, whatever the later candidates are;
    [onSpeechEnd] sets [isListening] to false and logs; [onSpeechError] logs
    the error and sets [isListening] to false.  None of them changes any
    other field, the pool, or calls a capability. *)
Theorem speech_callbacks_frame (c : Config) :
  (forall first later,
      step c (heard (first :: later)) =
      ({| store := {| isLoading := isLoading (store c);
                      isListening := isListening (store c);
                      aiReply := aiReply (store c);
                      recognizedText := first |};
          pool := pool c; platform := platform c |},
       [SetRecognizedText first])) /\
  step c SpeechEnd =
  ({| store := {| isLoading := isLoading (store c);
                  isListening := false;
                  aiReply := aiReply (store c);
                  recognizedText := recognizedText (store c) |};
      pool := pool c; platform := platform c |},
   [SetIsListening false; Console_log "Speech listening has ended."]) /\
  (forall e,
      step c (SpeechError e) =
      ({| store := {| isLoading := isLoading (store c);
                      isListening := false;
                      aiReply := aiReply (store c);
                      recognizedText := recognizedText (store c) |};
          pool := pool c; platform := platform c |},
       [Console_error "Speech Error:" (LoggedSpeechError (error e));
        SetIsListening false])).
Proof.
  repeat split; intros; unfold step, run_handler; simpl;
    rewrite app_nil_r; reflexivity.
Qed.

(** A result event without candidates changes nothing. *)
Lemma speech_results_without_candidate (c : Config) (e : SpeechResultsEvent) :
  results_value e = None \/ results_value e = Some [] ->
  step c (SpeechResults e) = (c, []).
Proof.
  intros [H|H]; unfold step, onSpeechResults, run_handler; rewrite H; simpl;
    rewrite app_nil_r, config_eta; reflexivity.
Qed.

(** ** Starting a listening session *)

(** An activation in the Idle state, followed at once by the settlement of
    [Voice.start]. *)
Lemma idle_activation_step (c : Config) :
  Idle (store c) ->
  match Voice_start_reacts (platform c) with
  | Pending =>
      step c Activation =
      ({| store := cleared true;
          pool := pool c ++ [AwaitVoiceStart];
          platform := platform c |},
       [SetRecognizedText EmptyString; SetAiReply (VString EmptyString);
        SetIsListening true; Voice_start "en-US"]) /\
      (forall e,
          step (fst (step c Activation))
               (StartSettled (length (pool c)) (Rejected e)) =
          ({| store := cleared false; pool := pool c;
              platform := platform c |},
           [Console_error "Failed to start listening:" (LoggedExn e);
            SetIsListening false])) /\
      step (fst (step c Activation))
           (StartSettled (length (pool c)) (Resolved tt)) =
      ({| store := cleared true; pool := pool c; platform := platform c |}, [])
  | Throws e =>
      step c Activation =
      ({| store := cleared false; pool := pool c; platform := platform c |},
       [SetRecognizedText EmptyString; SetAiReply (VString EmptyString);
        SetIsListening true; Voice_start "en-US";
        Console_error "Failed to start listening:" (LoggedExn e);
        SetIsListening false])
  end.
Proof.
  intros [Hl Hs].
  assert (Hact : step c Activation =
                 run_handler c (pool c) (startListening (platform c))).
  { unfold step, handlePress. rewrite Hl, Hs. reflexivity. }
  destruct (Voice_start_reacts (platform c)) as [e|] eqn:Hr.
  - rewrite Hact. unfold startListening, run_handler.
    rewrite Hr. simpl. rewrite app_nil_r, Hl. reflexivity.
  - assert (Hstep : step c Activation =
              ({| store := cleared true;
                  pool := pool c ++ [AwaitVoiceStart];
                  platform := platform c |},
               [SetRecognizedText EmptyString; SetAiReply (VString EmptyString);
                SetIsListening true; Voice_start "en-US"])).
    { rewrite Hact. unfold startListening, run_handler.
      rewrite Hr. simpl. rewrite Hl. reflexivity. }
    rewrite Hstep. split; [reflexivity|]. simpl fst.
    split; [intros e|]; unfold step; simpl pool; rewrite take_last;
      unfold run_handler; simpl; rewrite app_nil_r; reflexivity.
Qed.

Lemma start_settled_step (c : Config) (i : nat) (rest : list task)
    (r : settled unit) :
  take i (pool c) = Some (AwaitVoiceStart, rest) ->
  step c (StartSettled i r) =
  run_handler c rest (continue_startListening r).
Proof. intros H. unfold step. rewrite H. reflexivity. Qed.

(** C6, as the code has it.  An activation in the Idle state calls the
    three setters ([recognizedText] and [aiReply] to the empty string,
    [isListening] to true) and only then [Voice.start("en-US")].  If [start]
    throws, or if its promise rejects before any other event is delivered,
    the failure is logged, [isListening] goes back to false, and the
    controller is Idle with an empty transcript and an empty reply, the
    transcript area showing its placeholder.  Whenever the rejection arrives,
    it is logged, sets [isListening] to false and changes no other field. *)
Theorem idle_activation_starts_listening (c : Config) :
  Idle (store c) ->
  match Voice_start_reacts (platform c) with
  | Pending =>
      step c Activation =
      ({| store := cleared true;
          pool := pool c ++ [AwaitVoiceStart];
          platform := platform c |},
       [SetRecognizedText EmptyString; SetAiReply (VString EmptyString);
        SetIsListening true; Voice_start "en-US"]) /\
      (forall e,
          step (fst (step c Activation))
               (StartSettled (length (pool c)) (Rejected e)) =
          ({| store := cleared false; pool := pool c;
              platform := platform c |},
           [Console_error "Failed to start listening:" (LoggedExn e);
            SetIsListening false]))
  | Throws e =>
      step c Activation =
      ({| store := cleared false; pool := pool c; platform := platform c |},
       [SetRecognizedText EmptyString; SetAiReply (VString EmptyString);
        SetIsListening true; Voice_start "en-US";
        Console_error "Failed to start listening:" (LoggedExn e);
        SetIsListening false])
  end /\
  (forall c' i rest e,
      take i (pool c') = Some (AwaitVoiceStart, rest) ->
      step c' (StartSettled i (Rejected e)) =
      ({| store := {| isLoading := isLoading (store c');
                      isListening := false;
                      aiReply := aiReply (store c');
                      recognizedText := recognizedText (store c') |};
          pool := rest; platform := platform c' |},
       [Console_error "Failed to start listening:" (LoggedExn e);
        SetIsListening false])) /\
  transcriptText (cleared false) = "Tap the button to speak".
Proof.
  intros Hidle. pose proof (idle_activation_step c Hidle) as H.
  split; [|split; [|reflexivity]].
  - destruct (Voice_start_reacts (platform c)) as [e|].
    + exact H.
    + destruct H as [H1 [H2 _]]. split; assumption.
  - intros c' i rest e Ht. rewrite (start_settled_step _ _ _ _ Ht).
    change (continue_startListening (Rejected e))
      with ([Console_error "Failed to start listening:" (LoggedExn e);
             SetIsListening false], @Normal unit tt).
    rewrite run_handler_normal. reflexivity.
Qed.

Lemma idle_activation_starts_listening_witness :
  store (fst (step mount Activation)) = cleared true /\
  store (fst (step (fst (step mount Activation))
                   (StartSettled 0 (Rejected (Failure "denied"))))) =
  cleared false /\
  store (fst (step (fst (step mount (PlatformChanged start_throws)))
                   Activation)) = cleared false.
Proof.
  assert (Hidle : Idle (store mount)) by (split; reflexivity).
  pose proof (proj1 (idle_activation_starts_listening mount Hidle)) as H.
  change (Voice_start_reacts (platform mount)) with Pending in H.
  cbv iota in H. destruct H as [H1 H2].
  split; [rewrite H1; reflexivity|].
  split;
    [exact (f_equal (fun x => store (fst x)) (H2 (Failure "denied")))|].
  pose proof (proj1 (idle_activation_starts_listening
                       (fst (step mount (PlatformChanged start_throws)))
                       (conj eq_refl eq_refl))) as H3.
  change (Voice_start_reacts
            (platform (fst (step mount (PlatformChanged start_throws)))))
    with (Throws (Failure "recognizer unavailable")) in H3.
  cbv iota in H3. rewrite H3. reflexivity.
Defined.

(** C6 as stated fails when something happens between the press and the
    rejection of [Voice.start]: the rejection only sets [isListening] to
    false.  If a result was delivered in between, its transcript is on the
    screen after the failure; and if a send was started in between, the
    controller is Sending, not Idle. *)
Lemma start_rejection_keeps_what_arrived :
  Idle (store mount) /\
  exec mount result_before_start_rejects =
  ({| store := {| isLoading := false; isListening := false;
                  aiReply := VString EmptyString; recognizedText := "hi" |};
      pool := []; platform := calm |},
   [SetRecognizedText EmptyString; SetAiReply (VString EmptyString);
    SetIsListening true; Voice_start "en-US";
    SetRecognizedText "hi";
    Console_error "Failed to start listening:" (LoggedExn (Failure "denied"));
    SetIsListening false]) /\
  transcriptText (store (run mount result_before_start_rejects)) = "hi" /\
  Idle (store (run mount [Activation; StartSettled 0 (Resolved tt);
                          heard ["hi"]; Activation; SpeechEnd])) /\
  run mount send_before_start_rejects =
  {| store := {| isLoading := true; isListening := false;
                 aiReply := VString EmptyString;
                 recognizedText := EmptyString |};
     pool := [AwaitFetch]; platform := calm |}.
Proof. repeat split; reflexivity. Qed.

(** ** Stopping a listening session *)

Lemma sendToServer_pending (p : Platform) (message : string) :
  fetch_reacts p = Pending ->
  sendToServer p message =
  ([Console_log ("Sending this to server: " ++ dquote ++ message ++ dquote);
    SetIsLoading true; SetAiReply (VString EmptyString);
    Fetch SERVER_URL (request message)],
   Suspended AwaitFetch).
Proof. intros H. unfold sendToServer. rewrite H. reflexivity. Qed.

Lemma sendToServer_throws (p : Platform) (message : string) (e : exn) :
  fetch_reacts p = Throws e ->
  sendToServer p message =
  ([Console_log ("Sending this to server: " ++ dquote ++ message ++ dquote);
    SetIsLoading true; SetAiReply (VString EmptyString);
    Fetch SERVER_URL (request message);
    Console_error "Network Error:" (LoggedExn e);
    SetAiReply (VString CONNECTIVITY_ERROR);
    SetIsLoading false],
   Normal tt).
Proof. intros H. unfold sendToServer. rewrite H. reflexivity. Qed.

Lemma listening_activation_pending (c : Config) :
  Listening (store c) ->
  Voice_stop_reacts (platform c) = Pending ->
  step c Activation =
  ({| store := store c;
      pool := pool c ++ [AwaitVoiceStop (recognizedText (store c))];
      platform := platform c |},
   [Voice_stop]).
Proof.
  intros [Hl Hs] Hr. unfold step, handlePress, stopListening.
  rewrite Hl, Hs, Hr. reflexivity.
Qed.

Lemma listening_activation_throws (c : Config) (e : exn) :
  Listening (store c) ->
  Voice_stop_reacts (platform c) = Throws e ->
  step c Activation =
  run_handler c (pool c)
    ((Voice_stop :: stop_log (Rejected e), Normal tt) ;;
     handlePress_after_stop (platform c) (recognizedText (store c))).
Proof.
  intros [Hl Hs] Hr. unfold step, handlePress, stopListening.
  rewrite Hl, Hs, Hr. simpl.
  destruct (handlePress_after_stop (platform c) (recognizedText (store c)))
    as [w r]. reflexivity.
Qed.

Lemma stop_settled_step (c : Config) (i : nat) (text : string)
    (rest : list task) (r : settled unit) :
  take i (pool c) = Some (AwaitVoiceStop text, rest) ->
  step c (StopSettled i r) =
  run_handler c rest
    ((stop_log r, Normal tt) ;; handlePress_after_stop (platform c) text).
Proof.
  intros H. unfold step. rewrite H. unfold continue_handlePress.
  destruct r as [e|[]]; reflexivity.
Qed.

(** Neither [handlePress] in its listening branch nor its continuation after
    [stopListening] writes [isListening]. *)
Lemma after_stop_keeps_isListening (c : Config) (rest : list task)
    (pre : list effect) (text : string) :
  isListening
    (store (fst (run_handler c rest
                   ((pre, Normal tt) ;;
                    handlePress_after_stop (platform c) text)))) =
  isListening (commit (store c) pre).
Proof.
  unfold handlePress_after_stop.
  destruct text as [|a s]; simpl.
  - rewrite !app_nil_r. reflexivity.
  - destruct (fetch_reacts (platform c)) as [e|] eqn:Hf.
    + rewrite (sendToServer_throws _ _ e Hf). simpl.
      unfold commit. rewrite !fold_left_app. reflexivity.
    + rewrite (sendToServer_pending _ _ Hf). simpl.
      unfold commit. rewrite !fold_left_app. reflexivity.
Qed.

Lemma after_stop_no_unhandled (c : Config) (rest : list task)
    (pre : list effect) (text : string) :
  filter is_unhandled pre = [] ->
  filter is_unhandled
    (snd (run_handler c rest
            ((pre, Normal tt) ;;
             handlePress_after_stop (platform c) text))) = [].
Proof.
  intros Hpre. unfold handlePress_after_stop.
  destruct text as [|a s]; simpl.
  - rewrite !app_nil_r. exact Hpre.
  - destruct (fetch_reacts (platform c)) as [e|] eqn:Hf.
    + rewrite (sendToServer_throws _ _ e Hf). simpl.
      rewrite !filter_app, Hpre. reflexivity.
    + rewrite (sendToServer_pending _ _ Hf). simpl.
      rewrite !filter_app, Hpre. reflexivity.
Qed.

(** C2, as the code has it.  An activation in the Listening state calls
    [Voice.stop()]; a failure of [stop] (a synchronous throw or a rejected
    promise) is caught and logged and does not escape.  Neither the
    activation nor the settlement of [stop] changes [isListening]; the
    [onSpeechEnd] and [onSpeechError] callbacks, when they fire, set it to
    false. *)
Theorem stop_defers_listening_flag_to_callbacks (c : Config) :
  Listening (store c) ->
  (exists w, snd (step c Activation) = Voice_stop :: w) /\
  isListening (store (fst (step c Activation))) = true /\
  filter is_unhandled (snd (step c Activation)) = [] /\
  (forall e, Voice_stop_reacts (platform c) = Throws e ->
     exists w,
       snd (step c Activation) =
       Voice_stop ::
       Console_error "Failed to stop listening:" (LoggedExn e) :: w) /\
  (forall c' i rest r,
     take i (pool c') = Some (AwaitVoiceStop (recognizedText (store c)), rest) ->
     isListening (store (fst (step c' (StopSettled i r)))) =
     isListening (store c') /\
     filter is_unhandled (snd (step c' (StopSettled i r))) = [] /\
     exists w, snd (step c' (StopSettled i r)) = stop_log r ++ w) /\
  (forall c',
     isListening (store (fst (step c' SpeechEnd))) = false /\
     forall e, isListening (store (fst (step c' (SpeechError e)))) = false).
Proof.
  intros HL. pose proof HL as [Hl Hs].
  assert (Hact :
    (exists w, snd (step c Activation) = Voice_stop :: w) /\
    isListening (store (fst (step c Activation))) = true /\
    filter is_unhandled (snd (step c Activation)) = [] /\
    (forall e, Voice_stop_reacts (platform c) = Throws e ->
       exists w,
         snd (step c Activation) =
         Voice_stop ::
         Console_error "Failed to stop listening:" (LoggedExn e) :: w)).
  { destruct (Voice_stop_reacts (platform c)) as [e|] eqn:Hr.
    - rewrite (listening_activation_throws c e HL Hr).
      split; [|split; [|split]].
      + unfold run_handler, bind.
        destruct (handlePress_after_stop _ _) as [w r]. simpl. eauto.
      + rewrite after_stop_keeps_isListening. exact Hs.
      + apply after_stop_no_unhandled. reflexivity.
      + intros e' He'. inversion He'; subst e'.
        unfold run_handler, bind.
        destruct (handlePress_after_stop _ _) as [w r]. simpl. eauto.
    - rewrite (listening_activation_pending c HL Hr). simpl.
      split; [eauto|]. split; [exact Hs|].
      split; [reflexivity|]. intros e He. discriminate He. }
  destruct Hact as [H1 [H2 [H3 H4]]].
  repeat (split; [assumption|]). split.
  - intros c' i rest r Ht. rewrite (stop_settled_step _ _ _ _ r Ht).
    split; [|split].
    + rewrite after_stop_keeps_isListening.
      destruct r as [e|[]]; reflexivity.
    + apply after_stop_no_unhandled. destruct r as [e|[]]; reflexivity.
    + unfold run_handler, bind.
      destruct (handlePress_after_stop _ _) as [w r']. simpl.
      rewrite <- app_assoc. eauto.
  - intros c'. split; [|intros e]; reflexivity.
Qed.

(** C2 as stated fails: the user stops a listening session, [Voice.stop()]
    rejects, the rejection is logged, and [isListening] is still true. *)
Lemma stop_rejection_leaves_listening_on :
  Listening (store listening_silent) /\
  exec listening_silent
       [Activation; StopSettled 0 (Rejected (Failure "stop failed"))] =
  ({| store := {| isLoading := false; isListening := true;
                  aiReply := VString EmptyString;
                  recognizedText := EmptyString |};
      pool := []; platform := calm |},
   [Voice_stop;
    Console_error "Failed to stop listening:"
                  (LoggedExn (Failure "stop failed"))]).
Proof. split; [split|]; reflexivity. Qed.

Lemma stop_defers_listening_flag_to_callbacks_witness :
  Listening (store listening_hi) /\
  isListening (store (fst (step listening_hi Activation))) = true /\
  isListening
    (store (fst (step (fst (step listening_hi Activation))
                      (StopSettled 0 (Rejected (Failure "stop failed")))))) =
  isListening (store (fst (step listening_hi Activation))) /\
  isListening
    (store (fst (step (fst (step listening_hi Activation)) SpeechEnd))) = false.
Proof.
  assert (HL : Listening (store listening_hi)) by (split; reflexivity).
  destruct (stop_defers_listening_flag_to_callbacks listening_hi HL)
    as [_ [H2 [_ [_ [H5 H6]]]]].
  split; [exact HL|]. split; [exact H2|]. split.
  - apply (H5 (fst (step listening_hi Activation)) 0 []
              (Rejected (Failure "stop failed"))).
    reflexivity.
  - apply (H6 (fst (step listening_hi Activation))).
Defined.

(** ** From a stopped session to the Reply Capability *)

Lemma after_stop_reply_calls (c : Config) (rest : list task)
    (pre : list effect) (text : string) :
  reply_calls pre = [] ->
  reply_calls
    (snd (run_handler c rest
            ((pre, Normal tt) ;;
             handlePress_after_stop (platform c) text))) =
  if truthy_string text then [Fetch SERVER_URL (request text)] else [].
Proof.
  intros Hpre. unfold handlePress_after_stop, reply_calls in *.
  destruct text as [|a s]; simpl.
  - rewrite !app_nil_r. exact Hpre.
  - destruct (fetch_reacts (platform c)) as [e|] eqn:Hf.
    + rewrite (sendToServer_throws _ _ e Hf). simpl.
      rewrite !filter_app, Hpre. reflexivity.
    + rewrite (sendToServer_pending _ _ Hf). simpl.
      rewrite !filter_app, Hpre. reflexivity.
Qed.

Lemma after_stop_empty_text (c : Config) (rest : list task)
    (pre : list effect) :
  run_handler c rest
    ((pre, Normal tt) ;; handlePress_after_stop (platform c) EmptyString) =
  ({| store := commit (store c) pre; pool := rest; platform := platform c |},
   pre).
Proof. unfold run_handler; simpl. rewrite !app_nil_r. reflexivity. Qed.

(** C3, as the code has it.  For an activation in the Listening state, let
    [t] be the [recognizedText] of the render the activation ran in.  Once
    [stop] has thrown or settled, the activation has made exactly one Reply
    Capability call, a POST of [{message: t}], if [t] is non-empty, and none
    if [t] is empty; in the latter case the activation and the settlement
    change none of the four state fields. *)
Theorem listening_activation_reply_calls (c : Config) :
  Listening (store c) ->
  match Voice_stop_reacts (platform c) with
  | Pending =>
      step c Activation =
      ({| store := store c;
          pool := pool c ++ [AwaitVoiceStop (recognizedText (store c))];
          platform := platform c |},
       [Voice_stop])
  | Throws e =>
      reply_calls (snd (step c Activation)) =
      (if truthy_string (recognizedText (store c))
       then [Fetch SERVER_URL (request (recognizedText (store c)))]
       else []) /\
      (recognizedText (store c) = EmptyString ->
       fst (step c Activation) = c)
  end /\
  (forall c' i rest r,
      take i (pool c') = Some (AwaitVoiceStop (recognizedText (store c)), rest) ->
      reply_calls (snd (step c' (StopSettled i r))) =
      (if truthy_string (recognizedText (store c))
       then [Fetch SERVER_URL (request (recognizedText (store c)))]
       else []) /\
      (recognizedText (store c) = EmptyString ->
       fst (step c' (StopSettled i r)) =
       {| store := store c'; pool := rest; platform := platform c' |})).
Proof.
  intros HL. split.
  - destruct (Voice_stop_reacts (platform c)) as [e|] eqn:Hr.
    + rewrite (listening_activation_throws c e HL Hr). split.
      * apply after_stop_reply_calls. reflexivity.
      * intros Ht. rewrite Ht, after_stop_empty_text. simpl.
        apply config_eta.
    + apply (listening_activation_pending c HL Hr).
  - intros c' i rest r Ht. rewrite (stop_settled_step _ _ _ _ r Ht). split.
    + apply after_stop_reply_calls. destruct r as [e|[]]; reflexivity.
    + intros He. rewrite He, after_stop_empty_text. simpl.
      destruct r as [e|[]]; reflexivity.
Qed.

Lemma listening_activation_reply_calls_witness :
  Listening (store listening_hi) /\
  reply_calls
    (snd (step (fst (step listening_hi Activation))
               (StopSettled 0 (Resolved tt)))) =
  [Fetch SERVER_URL (request "hi")] /\
  reply_calls
    (snd (step (fst (step listening_silent Activation))
               (StopSettled 0 (Rejected (Failure "stop failed"))))) = [] /\
  store (fst (step (fst (step listening_silent Activation))
                   (StopSettled 0 (Rejected (Failure "stop failed"))))) =
  store listening_silent.
Proof.
  assert (HL : Listening (store listening_hi)) by (split; reflexivity).
  assert (HS : Listening (store listening_silent)) by (split; reflexivity).
  destruct (listening_activation_reply_calls listening_hi HL) as [_ H2].
  destruct (listening_activation_reply_calls listening_silent HS) as [_ H4].
  split; [exact HL|]. split; [|split].
  - exact (proj1 (H2 (fst (step listening_hi Activation)) 0 []
                     (Resolved tt) eq_refl)).
  - exact (proj1 (H4 (fst (step listening_silent Activation)) 0 []
                     (Rejected (Failure "stop failed")) eq_refl)).
  - exact (f_equal store
             (proj2 (H4 (fst (step listening_silent Activation)) 0 []
                        (Rejected (Failure "stop failed")) eq_refl)
                    eq_refl)).
Defined.

(** C3 as stated fails.  With an empty transcript no Reply Capability call
    is made, but the activation does not bring the controller back to Idle:
    [isListening] is still true after [stop] has resolved.  When
    [onSpeechEnd] does arrive, [aiReply] is whatever it was before the
    activation, here the reply to the previous transcript.  And the text
    that decides is the one rendered when the button was pressed: a result
    that arrives while [stop] is pending leaves [recognizedText] non-empty
    when [stop] resolves, and is not sent. *)
Lemma empty_transcript_stop_not_idle_nor_blank :
  (Listening (store listening_silent) /\
   recognizedText (store listening_silent) = EmptyString /\
   exec listening_silent [Activation; StopSettled 0 (Resolved tt)] =
   ({| store := {| isLoading := false; isListening := true;
                   aiReply := VString EmptyString;
                   recognizedText := EmptyString |};
       pool := []; platform := calm |},
    [Voice_stop])) /\
  (Listening (store (run mount reply_during_second_session)) /\
   recognizedText (store (run mount reply_during_second_session)) =
   EmptyString /\
   exec (run mount reply_during_second_session)
        [Activation; StopSettled 0 (Resolved tt); SpeechEnd] =
   ({| store := {| isLoading := false; isListening := false;
                   aiReply := VString "A";
                   recognizedText := EmptyString |};
       pool := []; platform := calm |},
    [Voice_stop; SetIsListening false;
     Console_log "Speech listening has ended."])) /\
  exec listening_silent
       [Activation; heard ["hi"]; StopSettled 0 (Resolved tt); SpeechEnd] =
  ({| store := {| isLoading := false; isListening := false;
                  aiReply := VString EmptyString;
                  recognizedText := "hi" |};
      pool := []; platform := calm |},
   [Voice_stop; SetRecognizedText "hi"; SetIsListening false;
    Console_log "Speech listening has ended."]).
Proof. repeat split; reflexivity. Qed.

(** ** Settlement of the Reply Capability *)

Lemma continue_fetch_rejected (e : exn) :
  continue_fetch (Rejected e) = (caught e, Normal tt).
Proof. reflexivity. Qed.

Lemma continue_fetch_resolved (response : Response) :
  continue_fetch (Resolved response) =
  match json response with
  | Pending => ([Response_json response],
                Suspended (AwaitResponseJson response))
  | Throws e => (Response_json response :: caught e, Normal tt)
  end.
Proof.
  unfold continue_fetch, sendToServer_try, response_json, resume, ret.
  unfold bind at 1. unfold await_call.
  destruct (json response); reflexivity.
Qed.

Lemma continue_json_rejected (response : Response) (e : exn) :
  continue_json response (Rejected e) = (caught e, Normal tt).
Proof. reflexivity. Qed.

Lemma continue_json_null (response : Response) :
  continue_json response (Resolved VNull) =
  (caught null_reply_error, Normal tt).
Proof. reflexivity. Qed.

Lemma continue_json_resolved (response : Response) (data : value) :
  data <> VNull ->
  continue_json response (Resolved data) =
  ([SetAiReply (js_or (reply_field data) (VString FALLBACK_REPLY));
    SetIsLoading false],
   Normal tt).
Proof. intros H. destruct data; try reflexivity. contradiction. Qed.

Lemma fetch_settled_step (c : Config) (i : nat) (rest : list task)
    (r : settled Response) :
  take i (pool c) = Some (AwaitFetch, rest) ->
  step c (FetchSettled i r) = run_handler c rest (continue_fetch r).
Proof. intros H. unfold step. rewrite H. reflexivity. Qed.

Lemma json_settled_step (c : Config) (i : nat) (response : Response)
    (rest : list task) (r : settled value) :
  take i (pool c) = Some (AwaitResponseJson response, rest) ->
  step c (JsonSettled i r) = run_handler c rest (continue_json response r).
Proof. intros H. unfold step. rewrite H. reflexivity. Qed.



(** No handler lets an exception escape. *)
Lemma step_no_unhandled (c : Config) (ev : event) :
  filter is_unhandled (snd (step c ev)) = [].
Proof.
  destruct ev as [|i r|i r|i r|i r|e| |e|p]; try reflexivity.
  - destruct (isLoading (store c)) eqn:Hl.
    + rewrite (activation_while_loading c Hl). reflexivity.
    + destruct (isListening (store c)) eqn:Hs.
      * destruct (Voice_stop_reacts (platform c)) as [e|] eqn:Hr.
        -- rewrite (listening_activation_throws c e (conj Hl Hs) Hr).
           apply after_stop_no_unhandled. reflexivity.
        -- rewrite (listening_activation_pending c (conj Hl Hs) Hr).
           reflexivity.
      * pose proof (idle_activation_step c (conj Hl Hs)) as H.
        destruct (Voice_start_reacts (platform c)) as [e|].
        -- rewrite H. reflexivity.
        -- rewrite (proj1 H). reflexivity.
  - unfold step. destruct (take i (pool c)) as [[[ |text| |response] rest]|];
      try reflexivity.
    destruct r as [e|[]]; reflexivity.
  - destruct (take i (pool c)) as [[[ |text| |response] rest]|] eqn:Ht;
      try (unfold step; rewrite Ht; reflexivity).
    rewrite (stop_settled_step _ _ _ _ r Ht).
    apply after_stop_no_unhandled. destruct r as [e|[]]; reflexivity.
  - destruct (take i (pool c)) as [[[ |text| |response] rest]|] eqn:Ht;
      try (unfold step; rewrite Ht; reflexivity).
    rewrite (fetch_settled_step _ _ _ r Ht).
    destruct r as [e|response].
    + reflexivity.
    + rewrite continue_fetch_resolved.
      destruct (json response); reflexivity.
  - destruct (take i (pool c)) as [[[ |text| |response] rest]|] eqn:Ht;
      try (unfold step; rewrite Ht; reflexivity).
    rewrite (json_settled_step _ _ _ _ r Ht).
    destruct r as [e|data]; [reflexivity|].
    destruct data; reflexivity.
  - unfold step, onSpeechResults.
    destruct (results_value e) as [[|first later]|]; reflexivity.
Qed.

(** C5, as the code has it.  When [response.json()] resolves with a payload
    other than [null], [aiReply] becomes the payload's [reply] value if that
    value is truthy and a valid child of [Text] (it holds no JSON object),
    and the fixed fallback string if the field is absent or falsy.  When
    [fetch] or [response.json()] throws or rejects, or when the payload is
    [null], [aiReply] becomes the fixed connectivity-error message.  No step
    of the controller lets an exception escape. *)
Theorem reply_settlement_sets_aiReply (c : Config) (i : nat)
    (rest : list task) :
  (forall response,
      take i (pool c) = Some (AwaitResponseJson response, rest) ->
      (forall data,
          data <> VNull ->
          renderable_settlement (Resolved data) = true ->
          aiReply (store (fst (step c (JsonSettled i (Resolved data))))) =
          match reply_field data with
          | Some v => if truthy v then v else VString FALLBACK_REPLY
          | None => VString FALLBACK_REPLY
          end) /\
      aiReply (store (fst (step c (JsonSettled i (Resolved VNull))))) =
      VString CONNECTIVITY_ERROR /\
      (forall e,
          aiReply (store (fst (step c (JsonSettled i (Rejected e))))) =
          VString CONNECTIVITY_ERROR)) /\
  (take i (pool c) = Some (AwaitFetch, rest) ->
   (forall e,
       aiReply (store (fst (step c (FetchSettled i (Rejected e))))) =
       VString CONNECTIVITY_ERROR) /\
   (forall response e,
       json response = Throws e ->
       aiReply (store (fst (step c (FetchSettled i (Resolved response))))) =
       VString CONNECTIVITY_ERROR)) /\
  (forall message e,
      fetch_reacts (platform c) = Throws e ->
      aiReply (commit (store c) (fst (sendToServer (platform c) message))) =
      VString CONNECTIVITY_ERROR) /\
  (forall ev, filter is_unhandled (snd (step c ev)) = []).
Proof.
  split; [|split; [|split]].
  - intros response Ht. split; [|split].
    + intros data Hd _. rewrite (json_settled_step _ _ _ _ _ Ht).
      rewrite (continue_json_resolved _ _ Hd), run_handler_normal.
      reflexivity.
    + rewrite (json_settled_step _ _ _ _ _ Ht). reflexivity.
    + intros e. rewrite (json_settled_step _ _ _ _ _ Ht). reflexivity.
  - intros Ht. split.
    + intros e. rewrite (fetch_settled_step _ _ _ _ Ht). reflexivity.
    + intros response e He. rewrite (fetch_settled_step _ _ _ _ Ht).
      rewrite continue_fetch_resolved, He. reflexivity.
  - intros message e He. rewrite (sendToServer_throws _ _ _ He). reflexivity.
  - apply step_no_unhandled.
Qed.

Lemma reply_settlement_sets_aiReply_witness :
  aiReply (store (fst (step parsing_hi
                         (JsonSettled 0 (Resolved (replying "Rest well."))))))
  = VString "Rest well." /\
  aiReply (store (fst (step parsing_hi
                         (JsonSettled 0 (Resolved (VObject []))))))
  = VString FALLBACK_REPLY /\
  aiReply (store (fst (step parsing_hi (JsonSettled 0 (Resolved VNull)))))
  = VString CONNECTIVITY_ERROR /\
  aiReply (store (fst (step sending_hi
                         (FetchSettled 0 (Rejected (Failure "offline"))))))
  = VString CONNECTIVITY_ERROR /\
  aiReply (store (fst (step sending_hi
                         (FetchSettled 0 (Resolved json_unreadable)))))
  = VString CONNECTIVITY_ERROR /\
  aiReply (commit initialState (fst (sendToServer fetch_throws "hi")))
  = VString CONNECTIVITY_ERROR.
Proof.
  destruct (reply_settlement_sets_aiReply parsing_hi 0 []) as [HJ _].
  destruct (HJ ok200 eq_refl) as [Hdata [Hnull _]].
  destruct (reply_settlement_sets_aiReply sending_hi 0 [])
    as [_ [HF _]].
  destruct (HF eq_refl) as [Hrej Hthrow].
  destruct (reply_settlement_sets_aiReply
              {| store := initialState; pool := []; platform := fetch_throws |}
              0 []) as [_ [_ [Hsync _]]].
  split; [|split; [|split; [|split; [|split]]]].
  - apply (Hdata (replying "Rest well.")); [discriminate|reflexivity].
  - apply (Hdata (VObject [])); [discriminate|reflexivity].
  - exact Hnull.
  - apply Hrej.
  - apply (Hthrow json_unreadable (TypeError "Already read")). reflexivity.
  - apply (Hsync "hi" (TypeError "Network request failed")). reflexivity.
Defined.

(** C5 as stated fails twice.  A payload whose [reply] field is present and
    holds the empty text does not make [aiReply] that text, and a payload
    that lacks a [reply] field because it is [null] yields the
    connectivity-error message, not the fallback string. *)
Lemma reply_text_and_missing_field_counterexample :
  pool parsing_hi = [AwaitResponseJson ok200] /\
  lookup "reply" [("reply", VString EmptyString)] = Some (VString EmptyString) /\
  aiReply (store (fst (step parsing_hi
                         (JsonSettled 0 (Resolved (replying EmptyString))))))
  <> VString EmptyString /\
  aiReply (store (fst (step parsing_hi
                         (JsonSettled 0 (Resolved (replying EmptyString))))))
  = VString FALLBACK_REPLY /\
  reply_field VNull = None /\
  aiReply (store (fst (step parsing_hi (JsonSettled 0 (Resolved VNull)))))
  <> VString FALLBACK_REPLY /\
  aiReply (store (fst (step parsing_hi (JsonSettled 0 (Resolved VNull)))))
  = VString CONNECTIVITY_ERROR.
Proof.
  repeat split; try reflexivity; simpl; discriminate.
Qed.

(** ** The HTTP status *)

(** C10, as the code has it.  The controller never reads the status of the
    response: whatever it is, the body is parsed, and a body that parses to a
    value other than [null] sets [aiReply] from its [reply] field or to the
    fallback string, provided that value is a valid child of [Text] (it
    holds no JSON object).  The [catch] block, which produces the
    connectivity-error message, runs when [fetch] rejects, when
    [response.json()] throws or rejects, and when the body parses to [null];
    among the bodies whose reply is a valid child it runs in no other
    case. *)
Theorem http_status_is_ignored (c : Config) (i : nat) (rest : list task)
    (response : Response) :
  take i (pool c) = Some (AwaitFetch, rest) ->
  json response = Pending ->
  step c (FetchSettled i (Resolved response)) =
  ({| store := store c; pool := rest ++ [AwaitResponseJson response];
      platform := platform c |},
   [Response_json response]) /\
  (forall data,
      data <> VNull ->
      renderable_settlement (Resolved data) = true ->
      step (fst (step c (FetchSettled i (Resolved response))))
           (JsonSettled (length rest) (Resolved data)) =
      ({| store := {| isLoading := false;
                      isListening := isListening (store c);
                      aiReply := js_or (reply_field data)
                                       (VString FALLBACK_REPLY);
                      recognizedText := recognizedText (store c) |};
          pool := rest; platform := platform c |},
       [SetAiReply (js_or (reply_field data) (VString FALLBACK_REPLY));
        SetIsLoading false])) /\
  (forall r,
      existsb is_network_error (snd (step c (FetchSettled i r))) =
      match r with
      | Rejected _ => true
      | Resolved other =>
          match json other with
          | Throws _ => true
          | Pending => false
          end
      end) /\
  (forall r,
      renderable_settlement r = true ->
      existsb is_network_error
        (snd (step (fst (step c (FetchSettled i (Resolved response))))
                   (JsonSettled (length rest) r))) =
      match r with
      | Rejected _ => true
      | Resolved VNull => true
      | Resolved _ => false
      end).
Proof.
  intros Ht Hj.
  assert (Hstep : step c (FetchSettled i (Resolved response)) =
            ({| store := store c; pool := rest ++ [AwaitResponseJson response];
                platform := platform c |},
             [Response_json response])).
  { rewrite (fetch_settled_step _ _ _ _ Ht), continue_fetch_resolved, Hj.
    rewrite run_handler_suspended. reflexivity. }
  rewrite Hstep. simpl fst.
  assert (Hnext : forall r,
            step {| store := store c;
                    pool := rest ++ [AwaitResponseJson response];
                    platform := platform c |}
                 (JsonSettled (length rest) r) =
            run_handler
              {| store := store c;
                 pool := rest ++ [AwaitResponseJson response];
                 platform := platform c |}
              rest (continue_json response r)).
  { intros r. apply json_settled_step. apply take_last. }
  split; [reflexivity|]. split; [|split].
  - intros data Hd _. rewrite Hnext, (continue_json_resolved _ _ Hd).
    rewrite run_handler_normal. reflexivity.
  - intros r. rewrite (fetch_settled_step _ _ _ _ Ht).
    destruct r as [e|other]; [reflexivity|].
    rewrite continue_fetch_resolved.
    destruct (json other); reflexivity.
  - intros r _. rewrite Hnext.
    destruct r as [e|data]; [reflexivity|]. destruct data; reflexivity.
Qed.

Lemma http_status_is_ignored_witness :
  status err500 = 500 /\
  step (fst (step sending_hi (FetchSettled 0 (Resolved err500))))
       (JsonSettled 0 (Resolved (replying "Server says hi"))) =
  ({| store := {| isLoading := false; isListening := false;
                  aiReply := VString "Server says hi";
                  recognizedText := "hi" |};
      pool := []; platform := calm |},
   [SetAiReply (VString "Server says hi"); SetIsLoading false]).
Proof.
  split; [reflexivity|].
  destruct (http_status_is_ignored sending_hi 0 [] err500 eq_refl eq_refl)
    as [_ [H2 _]].
  assert (Hd : replying "Server says hi" <> VNull) by discriminate.
  exact (H2 (replying "Server says hi") Hd eq_refl).
Defined.

(** C10 as stated fails in its last part: a response (here with status 500)
    whose body parses as JSON, to [null], produces the connectivity-error
    message although [fetch] resolved and the body parsed. *)
Lemma null_body_takes_the_error_path :
  exec sending_hi [FetchSettled 0 (Resolved err500);
                   JsonSettled 0 (Resolved VNull)] =
  ({| store := {| isLoading := false; isListening := false;
                  aiReply := VString CONNECTIVITY_ERROR;
                  recognizedText := "hi" |};
      pool := []; platform := calm |},
   [Response_json err500;
    Console_error "Network Error:" (LoggedExn null_reply_error);
    SetAiReply (VString CONNECTIVITY_ERROR);
    SetIsLoading false]).
Proof. reflexivity. Qed.

(** ** The loading flag and outstanding sends *)

Lemma sends_snoc (ts : list task) (t : task) :
  sends (ts ++ [t]) = sends ts + (if is_send t then 1 else 0).
Proof. rewrite sends_app. unfold sends; simpl. destruct (is_send t); reflexivity. Qed.

Lemma after_stop_send_change (c : Config) (rest : list task)
    (pre : list effect) (text : string) :
  sends rest = sends (pool c) ->
  isLoading (commit (store c) pre) = isLoading (store c) ->
  reply_calls pre = [] ->
  send_change c
    (fst (run_handler c rest
            ((pre, Normal tt) ;; handlePress_after_stop (platform c) text)))
    (snd (run_handler c rest
            ((pre, Normal tt) ;; handlePress_after_stop (platform c) text))).
Proof.
  intros Hs Hl Hp. unfold handlePress_after_stop.
  destruct text as [|a s].
  - cbn [truthy_string].
    fold (handlePress_after_stop (platform c) EmptyString).
    rewrite after_stop_empty_text. apply send_untouched; simpl; assumption.
  - cbn [truthy_string].
    destruct (fetch_reacts (platform c)) as [e|] eqn:Hf.
    + rewrite (sendToServer_throws _ _ e Hf). unfold bind.
      rewrite run_handler_normal. apply send_failed_at_once; simpl.
      * unfold commit. rewrite fold_left_app. reflexivity.
      * exact Hs.
      * unfold reply_calls. rewrite filter_app. simpl.
        intros H. apply app_eq_nil in H. destruct H as [_ H]. discriminate H.
    + rewrite (sendToServer_pending _ _ Hf). unfold bind.
      rewrite run_handler_suspended. apply send_started; simpl.
      * unfold commit. rewrite fold_left_app. reflexivity.
      * rewrite sends_snoc, Hs. simpl. lia.
      * unfold reply_calls. rewrite filter_app. simpl.
        intros H. apply app_eq_nil in H. destruct H as [_ H]. discriminate H.
Qed.

Lemma send_change_refl (c : Config) : send_change c c [].
Proof. apply send_untouched; reflexivity. Qed.

Lemma step_send_change (c : Config) (ev : event) :
  send_change c (fst (step c ev)) (snd (step c ev)).
Proof.
  destruct ev as [|i r|i r|i r|i r|e| |e|p].
  - destruct (isLoading (store c)) eqn:Hl.
    + rewrite (activation_while_loading c Hl). apply send_change_refl.
    + destruct (isListening (store c)) eqn:Hs.
      * destruct (Voice_stop_reacts (platform c)) as [e|] eqn:Hr.
        -- rewrite (listening_activation_throws c e (conj Hl Hs) Hr).
           apply after_stop_send_change; reflexivity.
        -- rewrite (listening_activation_pending c (conj Hl Hs) Hr).
           apply send_untouched; simpl; try reflexivity.
           rewrite sends_snoc. simpl. lia.
      * pose proof (idle_activation_step c (conj Hl Hs)) as H.
        destruct (Voice_start_reacts (platform c)) as [e|].
        -- rewrite H. apply send_untouched; simpl; auto.
        -- rewrite (proj1 H). apply send_untouched; simpl; auto.
           rewrite sends_snoc. simpl. lia.
  - unfold step.
    destruct (take i (pool c)) as [[[ |text| |response] rest]|] eqn:Ht;
      try apply send_change_refl.
    pose proof (take_sends _ _ _ _ Ht) as Hs. simpl in Hs.
    destruct r as [e|[]]; apply send_untouched; simpl;
      rewrite ?app_nil_r; auto.
  - destruct (take i (pool c)) as [[[ |text| |response] rest]|] eqn:Ht;
      try (unfold step; rewrite Ht; apply send_change_refl).
    rewrite (stop_settled_step _ _ _ _ r Ht).
    pose proof (take_sends _ _ _ _ Ht) as Hs. simpl in Hs.
    apply after_stop_send_change; auto; destruct r as [e|[]]; reflexivity.
  - destruct (take i (pool c)) as [[[ |text| |response] rest]|] eqn:Ht;
      try (unfold step; rewrite Ht; apply send_change_refl).
    rewrite (fetch_settled_step _ _ _ r Ht).
    pose proof (take_sends _ _ _ _ Ht) as Hs. simpl in Hs.
    destruct r as [e|response].
    + rewrite continue_fetch_rejected, run_handler_normal.
      apply send_settled; simpl; auto.
    + rewrite continue_fetch_resolved. destruct (json response).
      * rewrite run_handler_normal. apply send_settled; simpl; auto.
      * rewrite run_handler_suspended. apply send_untouched; simpl; auto.
        rewrite sends_snoc. simpl. lia.
  - destruct (take i (pool c)) as [[[ |text| |response] rest]|] eqn:Ht;
      try (unfold step; rewrite Ht; apply send_change_refl).
    rewrite (json_settled_step _ _ _ _ r Ht).
    pose proof (take_sends _ _ _ _ Ht) as Hs. simpl in Hs.
    destruct r as [e|data].
    + rewrite continue_json_rejected, run_handler_normal.
      apply send_settled; simpl; auto.
    + destruct data;
        try (rewrite continue_json_resolved by discriminate;
             rewrite run_handler_normal; apply send_settled; simpl; auto).
      rewrite continue_json_null, run_handler_normal.
      apply send_settled; simpl; auto.
  - unfold step, onSpeechResults.
    destruct (results_value e) as [[|first later]|];
      apply send_untouched; simpl; rewrite ?app_nil_r; reflexivity.
  - apply send_untouched; simpl; rewrite ?app_nil_r; reflexivity.
  - apply send_untouched; simpl; rewrite ?app_nil_r; reflexivity.
  - apply send_untouched; reflexivity.
Qed.

Lemma run_cons (c : Config) (ev : event) (rest : list event) :
  run c (ev :: rest) = run (fst (step c ev)) rest.
Proof. unfold run. rewrite exec_cons. reflexivity. Qed.

Lemma exclusive_cons (c : Config) (ev : event) (rest : list event) :
  exclusive c (ev :: rest) =
  (Nat.eqb (sends (pool c)) 0
   || match reply_calls (snd (step c ev)) with [] => true | _ :: _ => false end)
  && exclusive (fst (step c ev)) rest.
Proof. simpl. destruct (step c ev); reflexivity. Qed.

(** The flag is only ever true while some send is outstanding. *)
Lemma loading_needs_outstanding_send (evs : list event) :
  forall c,
    (isLoading (store c) = true -> 0 < sends (pool c)) ->
    isLoading (store (run c evs)) = true -> 0 < sends (pool (run c evs)).
Proof.
  induction evs as [|ev evs IH]; intros c Hc.
  - exact Hc.
  - rewrite run_cons. apply IH.
    destruct (step_send_change c ev) as [Hl Hs _|Hl Hs _|Hl Hs _|Hl Hs _];
      rewrite Hl; try discriminate.
    + rewrite Hs. exact Hc.
    + intros _. rewrite Hs. lia.
Qed.

Lemma exclusive_run_tracks (evs : list event) :
  forall c, tracks c -> exclusive c evs = true -> tracks (run c evs).
Proof.
  induction evs as [|ev evs IH]; intros c Hc Hx.
  - exact Hc.
  - rewrite run_cons. rewrite exclusive_cons in Hx.
    apply andb_true_iff in Hx. destruct Hx as [Hnow Hrest].
    apply IH; [|exact Hrest]. clear IH Hrest.
    destruct Hc as [Hle Hiff].
    assert (Hfree : reply_calls (snd (step c ev)) <> [] -> sends (pool c) = 0).
    { intros Hcalls. apply orb_true_iff in Hnow. destruct Hnow as [H|H].
      - apply Nat.eqb_eq. exact H.
      - destruct (reply_calls (snd (step c ev))); [contradiction|discriminate]. }
    unfold tracks.
    destruct (step_send_change c ev) as [Hl Hs Hw|Hl Hs Hw|Hl Hs Hw|Hl Hs Hw];
      rewrite Hl.
    + rewrite Hs. split; assumption.
    + rewrite Hs, (Hfree Hw). split; [lia|]. split; reflexivity.
    + rewrite Hs, (Hfree Hw). split; [lia|]. split; discriminate.
    + split; [lia|]. split; [discriminate|]. intros H1. lia.
Qed.

(** C4, as the code has it.  [sendToServer] sets [isLoading] to true before
    it calls [fetch]; the flag is not written again until that send settles,
    and the [finally] block sets it to false however the send ends: [fetch]
    throws or rejects, [response.json()] throws or rejects, or it resolves.
    In every run from mount, [isLoading] is true only while a send is
    outstanding; and in runs where no send is started while another one is
    outstanding, it is true exactly while a send is outstanding. *)
Theorem loading_flag_brackets_each_send :
  (forall st p message,
      match fetch_reacts p with
      | Pending =>
          snd (sendToServer p message) = Suspended AwaitFetch /\
          isLoading (commit st (fst (sendToServer p message))) = true
      | Throws _ =>
          snd (sendToServer p message) = Normal tt /\
          isLoading (commit st (fst (sendToServer p message))) = false
      end) /\
  (forall c i rest r,
      take i (pool c) = Some (AwaitFetch, rest) ->
      match r with
      | Resolved {| status := s; json := Pending |} =>
          fst (step c (FetchSettled i r)) =
          {| store := store c;
             pool := rest ++ [AwaitResponseJson {| status := s; json := Pending |}];
             platform := platform c |}
      | _ =>
          isLoading (store (fst (step c (FetchSettled i r)))) = false /\
          pool (fst (step c (FetchSettled i r))) = rest
      end) /\
  (forall c i response rest r,
      take i (pool c) = Some (AwaitResponseJson response, rest) ->
      isLoading (store (fst (step c (JsonSettled i r)))) = false /\
      pool (fst (step c (JsonSettled i r))) = rest) /\
  (forall evs,
      isLoading (store (run mount evs)) = true ->
      0 < sends (pool (run mount evs))) /\
  (forall evs,
      exclusive mount evs = true ->
      (isLoading (store (run mount evs)) = true <->
       0 < sends (pool (run mount evs)))).
Proof.
  split; [|split; [|split; [|split]]].
  - intros st p message. destruct (fetch_reacts p) as [e|] eqn:Hf.
    + rewrite (sendToServer_throws _ _ e Hf). split; reflexivity.
    + rewrite (sendToServer_pending _ _ Hf). split; reflexivity.
  - intros c i rest r Ht. rewrite (fetch_settled_step _ _ _ _ Ht).
    destruct r as [e|[s [e|]]].
    + rewrite continue_fetch_rejected, run_handler_normal.
      split; reflexivity.
    + rewrite continue_fetch_resolved. cbn [json].
      rewrite run_handler_normal. split; reflexivity.
    + rewrite continue_fetch_resolved. cbn [json].
      rewrite run_handler_suspended. reflexivity.
  - intros c i response rest r Ht. rewrite (json_settled_step _ _ _ _ _ Ht).
    destruct r as [e|data].
    + rewrite continue_json_rejected, run_handler_normal.
      split; reflexivity.
    + destruct data;
        try (rewrite continue_json_resolved by discriminate;
             rewrite run_handler_normal; split; reflexivity).
      rewrite continue_json_null, run_handler_normal. split; reflexivity.
  - intros evs. apply loading_needs_outstanding_send. discriminate.
  - intros evs Hx.
    assert (Hm : tracks mount).
    { split; [unfold sends; simpl; lia|]. split; discriminate. }
    destruct (exclusive_run_tracks evs mount Hm Hx) as [Hle Hiff].
    split; intros H; [apply Hiff in H; lia | apply Hiff; lia].
Qed.

Lemma loading_flag_brackets_each_send_witness :
  isLoading (store (run mount one_session)) = true /\
  0 < sends (pool (run mount one_session)) /\
  isLoading
    (store (fst (step (run mount one_session)
                      (JsonSettled 0 (Rejected (Failure "bad JSON")))))) =
  false /\
  isLoading
    (store (fst (step sending_hi
                      (FetchSettled 0 (Rejected (Failure "offline")))))) =
  false /\
  isLoading (commit initialState (fst (sendToServer fetch_throws "hi"))) =
  false.
Proof.
  destruct loading_flag_brackets_each_send as [H1 [H2 [H3 [H4 H5]]]].
  assert (Hx : exclusive mount one_session = true) by reflexivity.
  assert (Hl : isLoading (store (run mount one_session)) = true)
    by reflexivity.
  split; [exact Hl|].
  split; [exact (H4 one_session Hl)|].
  split; [exact (proj1 (H3 (run mount one_session) 0 ok200 []
                           (Rejected (Failure "bad JSON")) eq_refl))|].
  split; [exact (proj1 (H2 sending_hi 0 [] (Rejected (Failure "offline"))
                           eq_refl))|].
  exact (proj2 (H1 initialState fetch_throws "hi")).
Defined.

(** C4 as stated fails: after the first of two overlapping sends has
    settled, [isLoading] is false although the second Reply Capability call
    was made and has not settled. *)
Lemma loading_false_while_send_outstanding :
  reply_calls (trace mount double_activation) =
  [Fetch SERVER_URL (request "I feel tired");
   Fetch SERVER_URL (request "I feel tired")] /\
  run mount double_activation =
  {| store := {| isLoading := false; isListening := false;
                 aiReply := VString "Let's talk about that.";
                 recognizedText := "I feel tired" |};
     pool := [AwaitFetch]; platform := calm |}.
Proof. split; reflexivity. Qed.

(** ** Where the transcript and the reply are reset *)

Lemma js_or_is_not_reset (a : option value) :
  is_reply_reset (SetAiReply (js_or a (VString FALLBACK_REPLY))) = false.
Proof.
  destruct a as [v|]; [|reflexivity]. simpl.
  destruct (truthy v) eqn:Hv; [|reflexivity].
  destruct v as [ |b|n|s|items|fields]; try reflexivity.
  destruct s; [discriminate Hv|reflexivity].
Qed.

Lemma after_stop_reset_kind (c : Config) (ev : event) (rest : list task)
    (pre : list effect) (text : string) :
  existsb is_text_reset pre = false ->
  existsb is_reply_reset pre = false ->
  existsb is_voice_start pre = false ->
  reset_kind ev
    (snd (run_handler c rest
            ((pre, Normal tt) ;; handlePress_after_stop (platform c) text))).
Proof.
  intros Ht Hr Hv. unfold handlePress_after_stop.
  destruct text as [|a s]; cbn [truthy_string].
  - fold (handlePress_after_stop (platform c) EmptyString).
    rewrite after_stop_empty_text. apply resets_nothing; assumption.
  - destruct (fetch_reacts (platform c)) as [e|] eqn:Hf.
    + rewrite (sendToServer_throws _ _ e Hf). unfold bind.
      rewrite run_handler_normal. simpl snd.
      apply resets_reply_for_send; rewrite existsb_app;
        rewrite ?Ht, ?Hr, ?Hv; try reflexivity.
      apply orb_true_r.
    + rewrite (sendToServer_pending _ _ Hf). unfold bind.
      rewrite run_handler_suspended. simpl snd.
      apply resets_reply_for_send; rewrite existsb_app;
        rewrite ?Ht, ?Hr, ?Hv; try reflexivity.
      apply orb_true_r.
Qed.

(** C7, as the code has it.  Every step of the controller is of one of four
    kinds.  It resets neither field; or it is an activation that begins a
    listening session and resets both [recognizedText] and [aiReply]; or it
    starts a send and resets [aiReply] alone, leaving [recognizedText] as it
    is; or it is a speech result whose first candidate is the empty string,
    which replaces [recognizedText]. *)
Theorem resets_by_kind_of_step (c : Config) (ev : event) :
  reset_kind ev (snd (step c ev)).
Proof.
  destruct ev as [|i r|i r|i r|i r|e| |e|p].
  - destruct (isLoading (store c)) eqn:Hl.
    + rewrite (activation_while_loading c Hl).
      apply resets_nothing; reflexivity.
    + destruct (isListening (store c)) eqn:Hs.
      * destruct (Voice_stop_reacts (platform c)) as [e|] eqn:Hr.
        -- rewrite (listening_activation_throws c e (conj Hl Hs) Hr).
           apply after_stop_reset_kind; reflexivity.
        -- rewrite (listening_activation_pending c (conj Hl Hs) Hr).
           apply resets_nothing; reflexivity.
      * pose proof (idle_activation_step c (conj Hl Hs)) as H.
        destruct (Voice_start_reacts (platform c)) as [e|].
        -- rewrite H. apply resets_both_for_new_session; reflexivity.
        -- rewrite (proj1 H).
           apply resets_both_for_new_session; reflexivity.
  - unfold step.
    destruct (take i (pool c)) as [[[ |text| |response] rest]|];
      try (apply resets_nothing; reflexivity).
    destruct r as [e|[]]; apply resets_nothing; reflexivity.
  - destruct (take i (pool c)) as [[[ |text| |response] rest]|] eqn:Ht;
      try (unfold step; rewrite Ht; apply resets_nothing; reflexivity).
    rewrite (stop_settled_step _ _ _ _ r Ht).
    apply after_stop_reset_kind; destruct r as [e|[]]; reflexivity.
  - destruct (take i (pool c)) as [[[ |text| |response] rest]|] eqn:Ht;
      try (unfold step; rewrite Ht; apply resets_nothing; reflexivity).
    rewrite (fetch_settled_step _ _ _ r Ht).
    destruct r as [e|response].
    + apply resets_nothing; reflexivity.
    + rewrite continue_fetch_resolved.
      destruct (json response); apply resets_nothing; reflexivity.
  - destruct (take i (pool c)) as [[[ |text| |response] rest]|] eqn:Ht;
      try (unfold step; rewrite Ht; apply resets_nothing; reflexivity).
    rewrite (json_settled_step _ _ _ _ r Ht).
    destruct r as [e|data]; [apply resets_nothing; reflexivity|].
    destruct data;
      try (rewrite continue_json_resolved by discriminate;
           rewrite run_handler_normal; apply resets_nothing;
           [reflexivity|]; cbn [snd existsb];
           rewrite js_or_is_not_reset; reflexivity).
    rewrite continue_json_null. apply resets_nothing; reflexivity.
  - destruct e as [[[|first later]|]]; try (apply resets_nothing; reflexivity).
    destruct first as [|a s].
    + apply hears_empty_candidate; [exists later|..]; reflexivity.
    + apply resets_nothing; reflexivity.
  - apply resets_nothing; reflexivity.
  - apply resets_nothing; reflexivity.
  - apply resets_nothing; reflexivity.
Qed.

(** C7 as stated fails: [sendToServer] resets [aiReply] and not
    [recognizedText], and no listening session begins there.  In the
    specification's own scenario the step that sends the transcript calls
    [setAiReply] with the empty string and neither [setRecognizedText] nor
    [Voice.start]; and when two sends overlap, the second one wipes the reply
    to the first while the transcript stays. *)
Lemma send_resets_reply_alone :
  step listening_hi Activation =
  ({| store := store listening_hi; pool := [AwaitVoiceStop "hi"];
      platform := calm |}, [Voice_stop]) /\
  snd (step (fst (step listening_hi Activation))
            (StopSettled 0 (Resolved tt))) =
  [Console_log ("Sending this to server: " ++ dquote ++ "hi" ++ dquote);
   SetIsLoading true; SetAiReply (VString EmptyString);
   Fetch SERVER_URL (request "hi")] /\
  store (run mount reply_before_second_send) =
  {| isLoading := false; isListening := false;
     aiReply := VString "Let's talk about that.";
     recognizedText := "I feel tired" |} /\
  store (fst (step (run mount reply_before_second_send)
                   (StopSettled 0 (Resolved tt)))) =
  {| isLoading := true; isListening := false;
     aiReply := VString EmptyString;
     recognizedText := "I feel tired" |}.
Proof. repeat split; reflexivity. Qed.

(** ** The scenarios of the specification *)

Example scenario_transcript_then_reply :
  run mount (one_session
               ++ [JsonSettled 0 (Resolved (replying "Let's talk about that."))]) =
  {| store := {| isLoading := false; isListening := false;
                 aiReply := VString "Let's talk about that.";
                 recognizedText := "I feel tired" |};
     pool := []; platform := calm |}.
Proof. reflexivity. Qed.

Example scenario_no_result_no_call :
  exec mount [Activation; StartSettled 0 (Resolved tt);
              Activation; StopSettled 0 (Resolved tt); SpeechEnd] =
  ({| store := initialState; pool := []; platform := calm |},
   [SetRecognizedText EmptyString; SetAiReply (VString EmptyString);
    SetIsListening true; Voice_start "en-US"; Voice_stop;
    SetIsListening false; Console_log "Speech listening has ended."]).
Proof. reflexivity. Qed.

Example scenario_network_error :
  store (run sending_hi [FetchSettled 0 (Rejected (Failure "offline"))]) =
  {| isLoading := false; isListening := false;
     aiReply := VString CONNECTIVITY_ERROR; recognizedText := "hi" |}.
Proof. reflexivity. Qed.

Example scenario_payload_without_reply :
  store (run parsing_hi [JsonSettled 0 (Resolved (VObject []))]) =
  {| isLoading := false; isListening := false;
     aiReply := VString FALLBACK_REPLY; recognizedText := "hi" |}.
Proof. reflexivity. Qed.


(** * Further properties of the component *)

(** ** Every step has one of the listed shapes *)

Lemma stop_origin_commit (c : Config) (ev : event) (pre : list effect)
    (rest : list task) (text : string) :
  stop_origin c ev pre rest text -> commit (store c) pre = store c.
Proof.
  intros H. destruct H as [e _ _|i r text rest _].
  - reflexivity.
  - destruct r as [e|[]]; reflexivity.
Qed.

Lemma after_stop_step_case (c : Config) (ev : event) (pre : list effect)
    (rest : list task) (text : string) :
  stop_origin c ev pre rest text ->
  step_case c ev
    (fst (run_handler c rest
            ((pre, Normal tt) ;; handlePress_after_stop (platform c) text)))
    (snd (run_handler c rest
            ((pre, Normal tt) ;; handlePress_after_stop (platform c) text))).
Proof.
  intros Ho. pose proof (stop_origin_commit _ _ _ _ _ Ho) as Hc.
  destruct text as [|a s].
  - rewrite after_stop_empty_text. simpl. rewrite Hc.
    apply sc_stopped_silent. exact Ho.
  - unfold handlePress_after_stop. cbn [truthy_string].
    destruct (fetch_reacts (platform c)) as [e|] eqn:Hf.
    + rewrite (sendToServer_throws _ _ e Hf). unfold bind.
      rewrite run_handler_normal. simpl fst. simpl snd.
      unfold commit. rewrite fold_left_app. fold (commit (store c) pre).
      rewrite Hc.
      apply (sc_send_threw c ev pre rest (String a s) e Ho). discriminate.
    + rewrite (sendToServer_pending _ _ Hf). unfold bind.
      rewrite run_handler_suspended. simpl fst. simpl snd.
      unfold commit. rewrite fold_left_app. fold (commit (store c) pre).
      rewrite Hc.
      apply (sc_send_parked c ev pre rest (String a s) Ho). discriminate.
Qed.

Lemma step_cases (c : Config) (ev : event) :
  step_case c ev (fst (step c ev)) (snd (step c ev)).
Proof.
  destruct ev as [|i r|i r|i r|i r|e| |e|p].
  - destruct (isLoading (store c)) eqn:Hl.
    + rewrite (activation_while_loading c Hl). apply sc_ignored.
    + destruct (isListening (store c)) eqn:Hs.
      * destruct (Voice_stop_reacts (platform c)) as [e|] eqn:Hr.
        -- rewrite (listening_activation_throws c e (conj Hl Hs) Hr).
           apply after_stop_step_case.
           apply stop_threw; [split; assumption|exact Hr].
        -- rewrite (listening_activation_pending c (conj Hl Hs) Hr).
           apply sc_stop_parked. split; assumption.
      * pose proof (idle_activation_step c (conj Hl Hs)) as H.
        destruct (Voice_start_reacts (platform c)) as [e|].
        -- rewrite H. apply sc_start_threw. split; assumption.
        -- rewrite (proj1 H). apply sc_start_parked. split; assumption.
  - destruct (take i (pool c)) as [[[ |text| |response] rest]|] eqn:Ht;
      try (unfold step; rewrite Ht; apply sc_ignored).
    rewrite (start_settled_step _ _ _ r Ht). destruct r as [e|[]].
    + change (continue_startListening (Rejected e))
        with ([Console_error "Failed to start listening:" (LoggedExn e);
               SetIsListening false], @Normal unit tt).
      rewrite run_handler_normal. apply sc_start_rejected. exact Ht.
    + change (continue_startListening (Resolved tt))
        with (@nil effect, @Normal unit tt).
      rewrite run_handler_normal. apply sc_start_settled. exact Ht.
  - destruct (take i (pool c)) as [[[ |text| |response] rest]|] eqn:Ht;
      try (unfold step; rewrite Ht; apply sc_ignored).
    rewrite (stop_settled_step _ _ _ _ r Ht).
    apply after_stop_step_case. apply stop_settled. exact Ht.
  - destruct (take i (pool c)) as [[[ |text| |response] rest]|] eqn:Ht;
      try (unfold step; rewrite Ht; apply sc_ignored).
    rewrite (fetch_settled_step _ _ _ r Ht). destruct r as [e|response].
    + rewrite continue_fetch_rejected, run_handler_normal.
      apply sc_fetch_rejected. exact Ht.
    + rewrite continue_fetch_resolved.
      destruct (json response) as [e|] eqn:Hj.
      * rewrite run_handler_normal. apply sc_json_threw; assumption.
      * rewrite run_handler_suspended. apply sc_json_parked; assumption.
  - destruct (take i (pool c)) as [[[ |text| |response] rest]|] eqn:Ht;
      try (unfold step; rewrite Ht; apply sc_ignored).
    rewrite (json_settled_step _ _ _ _ r Ht). destruct r as [e|data].
    + rewrite continue_json_rejected, run_handler_normal.
      apply (sc_json_failed c i rest response (Rejected e) e Ht).
      left. reflexivity.
    + destruct data;
        try (rewrite continue_json_resolved by discriminate;
             rewrite run_handler_normal;
             apply (sc_replied c i rest response); [exact Ht|discriminate]).
      rewrite continue_json_null, run_handler_normal.
      apply (sc_json_failed c i rest response (Resolved VNull)
               null_reply_error Ht).
      right. split; reflexivity.
  - destruct e as [[[|first later]|]].
    + rewrite speech_results_without_candidate by (right; reflexivity).
      apply sc_ignored.
    + change (step c (SpeechResults
                        {| results_value := Some (first :: later) |}))
        with (run_handler c (pool c)
                ([SetRecognizedText first], @Normal unit tt)).
      rewrite run_handler_normal. apply (sc_heard c first later).
    + rewrite speech_results_without_candidate by (left; reflexivity).
      apply sc_ignored.
  - change (step c SpeechEnd)
      with (run_handler c (pool c)
              ([SetIsListening false;
                Console_log "Speech listening has ended."],
               @Normal unit tt)).
    rewrite run_handler_normal. apply sc_speech_end.
  - change (step c (SpeechError e))
      with (run_handler c (pool c)
              ([Console_error "Speech Error:" (LoggedSpeechError (error e));
                SetIsListening false], @Normal unit tt)).
    rewrite run_handler_normal. apply sc_speech_error.
  - apply sc_platform.
Qed.

Lemma run_invariant (P : Config -> Prop) :
  (forall c ev, P c -> P (fst (step c ev))) ->
  forall evs c, P c -> P (run c evs).
Proof.
  intros Hstep evs. induction evs as [|ev evs IH]; intros c Hc.
  - exact Hc.
  - rewrite run_cons. apply IH, Hstep, Hc.
Qed.

(** ** What the screen shows *)

Lemma step_keeps_blank_while_loading (c : Config) (ev : event) :
  (isLoading (store c) = true -> aiReply (store c) = VString EmptyString) ->
  isLoading (store (fst (step c ev))) = true ->
  aiReply (store (fst (step c ev))) = VString EmptyString.
Proof.
  intros Hc. destruct (step_cases c ev); simpl; auto; discriminate.
Qed.

(** X1. In every run from mount whose replies are valid children, in the
    state each event leaves behind, [isLoading] true implies that [aiReply]
    is the empty string; this holds also when sends overlap. *)
Theorem loading_implies_blank_reply (evs : list event) :
  forallb renderable_event evs = true ->
  isLoading (store (run mount evs)) = true ->
  aiReply (store (run mount evs)) = VString EmptyString.
Proof.
  intros _.
  apply (run_invariant
           (fun c => isLoading (store c) = true ->
                     aiReply (store c) = VString EmptyString)).
  - intros c ev. apply step_keeps_blank_while_loading.
  - discriminate.
Qed.

Lemma loading_implies_blank_reply_witness :
  isLoading (store (run mount one_session)) = true /\
  aiReply (store (run mount one_session)) = VString EmptyString.
Proof.
  split; [reflexivity|].
  apply (loading_implies_blank_reply one_session); reflexivity.
Defined.

Lemma js_or_truthy (a : option value) :
  truthy (js_or a (VString FALLBACK_REPLY)) = true.
Proof.
  destruct a as [v|]; [|reflexivity]. simpl.
  destruct (truthy v) eqn:Hv; [exact Hv|reflexivity].
Qed.

Lemma step_reply_blank_or_visible (c : Config) (ev : event) :
  reply_blank_or_visible (store c) ->
  reply_blank_or_visible (store (fst (step c ev))).
Proof.
  intros Hc. unfold reply_blank_or_visible in *.
  destruct (step_cases c ev); simpl; auto.
  right. apply js_or_truthy.
Qed.

Lemma step_reply_valid_child (c : Config) (ev : event) :
  renderable_event ev = true ->
  valid_child (aiReply (store c)) = true ->
  valid_child (aiReply (store (fst (step c ev)))) = true.
Proof.
  intros He Hc. destruct (step_cases c ev); simpl; auto.
Qed.

Lemma run_reply_valid_child (evs : list event) :
  forall c,
    forallb renderable_event evs = true ->
    valid_child (aiReply (store c)) = true ->
    valid_child (aiReply (store (run c evs))) = true.
Proof.
  induction evs as [|ev evs IH]; intros c Hevs Hc.
  - exact Hc.
  - simpl in Hevs. apply andb_true_iff in Hevs. destruct Hevs as [Hev Hevs].
    rewrite run_cons. apply IH; [exact Hevs|].
    apply step_reply_valid_child; assumption.
Qed.

(** X2. In every run from mount whose replies are valid children, [aiReply]
    is always a valid child of [Text], and it is either the empty string or
    a truthy value: a falsy reply never reaches the state.  So the reply
    branch of the JSX is [null] exactly when [aiReply] is the empty string,
    and otherwise it is the reply area with [aiReply] as its text. *)
Theorem reply_area_hidden_iff_blank (evs : list event) :
  forallb renderable_event evs = true ->
  valid_child (aiReply (store (run mount evs))) = true /\
  (reply_area (render (store (run mount evs))) = None <->
   aiReply (store (run mount evs)) = VString EmptyString) /\
  (aiReply (store (run mount evs)) <> VString EmptyString ->
   reply_area (render (store (run mount evs))) =
   Some (aiReply (store (run mount evs)))).
Proof.
  intros Hevs.
  assert (H : reply_blank_or_visible (store (run mount evs))).
  { apply (run_invariant (fun c => reply_blank_or_visible (store c))).
    - intros c ev. apply step_reply_blank_or_visible.
    - left. reflexivity. }
  split; [apply run_reply_valid_child; [exact Hevs|reflexivity]|].
  unfold render; simpl. destruct H as [H|H]; rewrite H.
  - split; [split; reflexivity|]. intros Hn. contradiction Hn. reflexivity.
  - split; [|reflexivity]. split; [discriminate|].
    intros Hb. rewrite Hb in H. discriminate H.
Qed.

Lemma reply_area_hidden_iff_blank_witness :
  reply_area (render (store (run mount double_activation))) =
  Some (VString "Let's talk about that.") /\
  reply_area (render (store (run mount one_session))) = None.
Proof.
  destruct (reply_area_hidden_iff_blank double_activation eq_refl)
    as [_ [_ H1]].
  destruct (reply_area_hidden_iff_blank one_session eq_refl)
    as [_ [H2 _]].
  split.
  - apply H1. discriminate.
  - apply H2. reflexivity.
Defined.



(** ** Where the text sent to the server comes from *)

Lemma take_Forall (P : task -> Prop) (ts : list task) :
  forall i t rest,
    take i ts = Some (t, rest) -> Forall P ts -> P t /\ Forall P rest.
Proof.
  induction ts as [|x ts IH]; intros i t rest H HP.
  - simpl in H. discriminate H.
  - inversion HP as [|y l Hx Hts]; subst. destruct i as [|j]; simpl in H.
    + inversion H; subst. split; assumption.
    + destruct (take j ts) as [[y rest']|] eqn:E; [|discriminate H].
      inversion H; subst. destruct (IH _ _ _ E Hts) as [Ht Hr].
      split; [exact Ht|]. constructor; assumption.
Qed.

Lemma known_more (H H' : list string) (t : string) :
  known H t -> known (H ++ H') t.
Proof. intros [Ht|Ht]; [left; exact Ht|right; apply in_or_app; left; exact Ht]. Qed.

Lemma task_known_more (H H' : list string) (t : task) :
  task_known H t -> task_known (H ++ H') t.
Proof. destruct t; simpl; auto. apply known_more. Qed.

Lemma provenance_pool_snoc (H : list string) (ts : list task) (t : task) :
  Forall (task_known H) ts -> task_known H t ->
  Forall (task_known H) (ts ++ [t]).
Proof. intros Hts Ht. apply Forall_app. split; [exact Hts|]. constructor; auto. Qed.

Lemma fetch_ok_more (H H' : list string) (e : effect) :
  fetch_ok H e -> fetch_ok (H ++ H') e.
Proof.
  destruct e; simpl; auto. intros [m [Hn [Hin Heq]]].
  exists m. split; [exact Hn|]. split; [|exact Heq].
  apply in_or_app. left. exact Hin.
Qed.

Lemma stop_origin_provenance (H : list string) (c : Config) (ev : event)
    (pre : list effect) (rest : list task) (text : string) :
  provenance H c ->
  stop_origin c ev pre rest text ->
  known H text /\ Forall (task_known H) rest /\ Forall (fetch_ok H) pre /\
  first_candidate ev = [].
Proof.
  intros [Hk Hp] Ho. destruct Ho as [e _ _|i r text rest Ht].
  - repeat split; auto. repeat constructor.
  - destruct (take_Forall _ _ _ _ _ Ht Hp) as [Ht' Hr].
    repeat split; auto. destruct r as [e|[]]; repeat constructor.
Qed.

Lemma send_effects_fetch_ok (H : list string) (text : string) :
  known H text -> text <> EmptyString ->
  Forall (fetch_ok H) (send_effects text).
Proof.
  intros [Hk|Hk] Hn; [contradiction|].
  repeat constructor. simpl. exists text. auto.
Qed.

Lemma caught_fetch_ok (H : list string) (e : exn) :
  Forall (fetch_ok H) (caught e).
Proof. repeat constructor. Qed.

Lemma step_provenance (H : list string) (c : Config) (ev : event) :
  provenance H c ->
  provenance (H ++ first_candidate ev) (fst (step c ev)) /\
  Forall (fetch_ok H) (snd (step c ev)).
Proof.
  intros Hc. pose proof Hc as [Hk Hp].
  assert (Hmore : forall ts, Forall (task_known H) ts ->
                    Forall (task_known (H ++ first_candidate ev)) ts).
  { intros ts Hts. eapply Forall_impl; [|exact Hts].
    intros t. apply task_known_more. }
  destruct (step_cases c ev) as
    [ev|p|Hi|e Hi|i rest Ht|i rest e Ht|Hl|ev pre rest Ho
     |ev pre rest text Ho Hn|ev pre rest text e Ho Hn
     |i rest e Ht|i rest response Ht Hj|i rest response e Ht Hj
     |i rest response r e Ht Hr|i rest response data Ht Hd
     |first later| |e];
    try (destruct (stop_origin_provenance _ _ _ _ _ _ Hc Ho)
           as [Hkt [Hrest [Hpre Hfc]]]);
    try (destruct (take_Forall _ _ _ _ _ Ht Hp) as [_ Hrest]);
    unfold provenance; simpl store; simpl pool; simpl recognizedText.
  - split; [split; [apply known_more, Hk|apply Hmore, Hp]|constructor].
  - split; [split; [apply known_more, Hk|apply Hmore, Hp]|constructor].
  - split; [split; [left; reflexivity|]|repeat constructor].
    apply Hmore, provenance_pool_snoc; [exact Hp|exact I].
  - split; [split; [left; reflexivity|apply Hmore, Hp]|repeat constructor].
  - split; [split; [apply known_more, Hk|apply Hmore, Hrest]|constructor].
  - split; [split; [apply known_more, Hk|apply Hmore, Hrest]
           |repeat constructor].
  - split; [split; [apply known_more, Hk|]|repeat constructor].
    apply Hmore, provenance_pool_snoc; [exact Hp|exact Hk].
  - split; [split; [apply known_more, Hk|apply Hmore, Hrest]|exact Hpre].
  - split; [split; [apply known_more, Hk|]|].
    + apply Hmore, provenance_pool_snoc; [exact Hrest|exact I].
    + apply Forall_app. split; [exact Hpre|].
      apply send_effects_fetch_ok; assumption.
  - split; [split; [apply known_more, Hk|apply Hmore, Hrest]|].
    apply Forall_app. split; [exact Hpre|]. apply Forall_app.
    split; [apply send_effects_fetch_ok; assumption|apply caught_fetch_ok].
  - split; [split; [apply known_more, Hk|apply Hmore, Hrest]
           |apply caught_fetch_ok].
  - split; [split; [apply known_more, Hk|]|repeat constructor].
    apply Hmore, provenance_pool_snoc; [exact Hrest|exact I].
  - split; [split; [apply known_more, Hk|apply Hmore, Hrest]|].
    constructor; [exact I|apply caught_fetch_ok].
  - split; [split; [apply known_more, Hk|apply Hmore, Hrest]
           |apply caught_fetch_ok].
  - split; [split; [apply known_more, Hk|apply Hmore, Hrest]
           |repeat constructor].
  - split; [split; [|apply Hmore, Hp]|repeat constructor].
    right. apply in_or_app. right. left. reflexivity.
  - split; [split; [apply known_more, Hk|apply Hmore, Hp]
           |repeat constructor].
  - split; [split; [apply known_more, Hk|apply Hmore, Hp]
           |repeat constructor].
Qed.

Lemma trace_cons (c : Config) (ev : event) (rest : list event) :
  trace c (ev :: rest) = snd (step c ev) ++ trace (fst (step c ev)) rest.
Proof. unfold trace. rewrite exec_cons. reflexivity. Qed.

Lemma run_provenance (evs : list event) :
  forall H c,
    provenance H c ->
    Forall (fetch_ok (H ++ reported evs)) (trace c evs).
Proof.
  induction evs as [|ev evs IH]; intros H c Hc.
  - constructor.
  - rewrite trace_cons. destruct (step_provenance H c ev Hc) as [Hc' Hw].
    apply Forall_app. split.
    + eapply Forall_impl; [|exact Hw]. intros e. apply fetch_ok_more.
    + specialize (IH _ _ Hc'). unfold reported in *. simpl.
      rewrite <- app_assoc in IH. exact IH.
Qed.

(** X4. Every Reply Capability call made in a run from mount is a POST to
    [SERVER_URL] with the JSON content type whose body is [{message: m}],
    where [m] is non-empty and is the first candidate of a result event
    delivered in that run: the controller sends nothing the Speech
    Capability did not report, and never an empty message. *)
Theorem only_reported_transcripts_are_sent (evs : list event)
    (url : string) (init : RequestInit) :
  In (Fetch url init) (trace mount evs) ->
  exists m,
    m <> EmptyString /\ In m (reported evs) /\
    url = SERVER_URL /\
    method init = "POST" /\
    headers init = [("Content-Type", "application/json")] /\
    body init = JSON_stringify (VObject [("message", VString m)]).
Proof.
  intros Hin.
  assert (Hm : provenance [] mount).
  { split; [left; reflexivity|constructor]. }
  pose proof (run_provenance evs [] mount Hm) as Hall.
  rewrite Forall_forall in Hall. specialize (Hall _ Hin).
  simpl in Hall. destruct Hall as [m [Hn [Hr [Hu Hi]]]].
  exists m. subst init. repeat split; assumption.
Qed.

Lemma only_reported_transcripts_are_sent_witness :
  exists m,
    m <> EmptyString /\ In m (reported one_session) /\
    SERVER_URL = SERVER_URL /\
    method (request "I feel tired") = "POST" /\
    headers (request "I feel tired") = [("Content-Type", "application/json")] /\
    body (request "I feel tired") =
    JSON_stringify (VObject [("message", VString m)]).
Proof.
  apply (only_reported_transcripts_are_sent one_session SERVER_URL
           (request "I feel tired")).
  vm_compute. right. right. right. right. right. right. right. right.
  right. left. reflexivity.
Defined.

(** ** How many calls a run makes *)

Lemma take_stop_tasks (ts : list task) :
  forall i t rest,
    take i ts = Some (t, rest) ->
    stop_tasks ts = (if is_stop_task t then 1 else 0) + stop_tasks rest.
Proof.
  induction ts as [|x ts IH]; intros i t rest H.
  - simpl in H. discriminate H.
  - destruct i as [|j]; simpl in H.
    + inversion H; subst. unfold stop_tasks; simpl.
      destruct (is_stop_task t); reflexivity.
    + destruct (take j ts) as [[y rest']|] eqn:E; [|discriminate H].
      inversion H; subst. specialize (IH _ _ _ E).
      unfold stop_tasks in *; simpl. destruct (is_stop_task x); simpl;
        rewrite IH; destruct (is_stop_task t); lia.
Qed.

Lemma stop_tasks_snoc (ts : list task) (t : task) :
  stop_tasks (ts ++ [t]) = stop_tasks ts + (if is_stop_task t then 1 else 0).
Proof.
  unfold stop_tasks. rewrite filter_app, length_app. simpl.
  destruct (is_stop_task t); reflexivity.
Qed.

Lemma step_call_counts (c : Config) (ev : event) :
  length (reply_calls (snd (step c ev))) + stop_tasks (pool (fst (step c ev)))
  <= length (filter is_voice_stop (snd (step c ev))) + stop_tasks (pool c) /\
  length (speech_calls (snd (step c ev)))
  <= (if is_activation ev then 1 else 0).
Proof.
  destruct (step_cases c ev) as
    [ev|p|Hi|e Hi|i rest Ht|i rest e Ht|Hl|ev pre rest Ho
     |ev pre rest text Ho Hn|ev pre rest text e Ho Hn
     |i rest e Ht|i rest response Ht Hj|i rest response e Ht Hj
     |i rest response r e Ht Hr|i rest response data Ht Hd
     |first later| |e];
    try (pose proof (take_stop_tasks _ _ _ _ Ht) as Hs; simpl in Hs);
    unfold reply_calls, speech_calls; simpl;
    rewrite ?stop_tasks_snoc; simpl; try lia.
  - destruct Ho as [e0 _ _|i r text rest Ht].
    + simpl. lia.
    + pose proof (take_stop_tasks _ _ _ _ Ht) as Hs; simpl in Hs.
      destruct r as [e0|[]]; simpl; lia.
  - rewrite !filter_app, !length_app. simpl.
    destruct Ho as [e0 _ _|i r text rest Ht].
    + simpl. lia.
    + pose proof (take_stop_tasks _ _ _ _ Ht) as Hs; simpl in Hs.
      destruct r as [e0|[]]; simpl; lia.
  - rewrite !filter_app, !length_app. simpl.
    destruct Ho as [e0 _ _|i r text rest Ht].
    + simpl. lia.
    + pose proof (take_stop_tasks _ _ _ _ Ht) as Hs; simpl in Hs.
      destruct r as [e0|[]]; simpl; lia.
Qed.

Lemma run_call_counts (evs : list event) :
  forall c,
    length (reply_calls (trace c evs)) + stop_tasks (pool (run c evs))
    <= length (filter is_voice_stop (trace c evs)) + stop_tasks (pool c) /\
    length (speech_calls (trace c evs)) <= length (filter is_activation evs).
Proof.
  induction evs as [|ev evs IH]; intros c.
  - unfold trace, run, reply_calls, speech_calls. simpl. split; lia.
  - rewrite trace_cons, run_cons. unfold reply_calls, speech_calls in *.
    rewrite !filter_app, !length_app.
    destruct (step_call_counts c ev) as [H1 H2].
    destruct (IH (fst (step c ev))) as [H3 H4].
    unfold reply_calls, speech_calls in *.
    split; [lia|]. simpl. destruct (is_activation ev); simpl; lia.
Qed.

(** X5. In every run from mount, the controller makes at most one Speech
    Capability call per activation, and at most one Reply Capability call per
    call of [Voice.stop()]: speech events and settlements alone never start
    a session, stop one, or send anything that an activation did not ask
    for. *)
Theorem calls_are_bounded_by_activations (evs : list event) :
  length (reply_calls (trace mount evs))
  <= length (filter is_voice_stop (trace mount evs)) /\
  length (filter is_voice_stop (trace mount evs))
  <= length (speech_calls (trace mount evs)) /\
  length (speech_calls (trace mount evs))
  <= length (filter is_activation evs).
Proof.
  destruct (run_call_counts evs mount) as [H1 H2].
  split; [|split; [|exact H2]].
  - unfold stop_tasks in H1 at 2. simpl in H1. lia.
  - unfold speech_calls. generalize (trace mount evs) as w.
    induction w as [|e w IH]; simpl; [lia|].
    destruct e; simpl; lia.
Qed.

(** ** The button *)

Lemma after_stop_speech_calls (c : Config) (rest : list task)
    (pre : list effect) (text : string) :
  speech_calls
    (snd (run_handler c rest
            ((pre, Normal tt) ;;
             handlePress_after_stop (platform c) text))) =
  speech_calls pre.
Proof.
  unfold handlePress_after_stop, speech_calls.
  destruct text as [|a s]; simpl.
  - rewrite !app_nil_r. reflexivity.
  - destruct (fetch_reacts (platform c)) as [e|] eqn:Hf.
    + rewrite (sendToServer_throws _ _ e Hf). simpl.
      rewrite !filter_app. simpl. rewrite !app_nil_r. reflexivity.
    + rewrite (sendToServer_pending _ _ Hf). simpl.
      rewrite !filter_app. simpl. rewrite !app_nil_r. reflexivity.
Qed.

(** X6. What the button shows tells what a press does.  With the spinner
    the button is disabled and a press would change nothing.  With a label
    the button is enabled and a press makes exactly one Speech Capability
    call: [Voice.start("en-US")], and no Reply Capability call, under
    "Tap to Talk"; [Voice.stop()] under "Send", where the button also has
    the listening style. *)
Theorem button_announces_the_call (c : Config) :
  match button_content (render (store c)) with
  | ActivityIndicator =>
      button_disabled (render (store c)) = true /\
      step c Activation = (c, [])
  | ButtonText label =>
      button_disabled (render (store c)) = false /\
      ((label = "Tap to Talk" /\
        button_listening_style (render (store c)) = false /\
        speech_calls (snd (step c Activation)) = [Voice_start "en-US"] /\
        reply_calls (snd (step c Activation)) = []) \/
       (label = "Send" /\
        button_listening_style (render (store c)) = true /\
        speech_calls (snd (step c Activation)) = [Voice_stop]))
  end.
Proof.
  unfold render.
  cbn [button_content button_disabled button_listening_style].
  destruct (isLoading (store c)) eqn:Hl.
  - split; [reflexivity|]. apply activation_while_loading. exact Hl.
  - split; [reflexivity|]. destruct (isListening (store c)) eqn:Hs.
    + right. split; [reflexivity|]. split; [reflexivity|].
      destruct (Voice_stop_reacts (platform c)) as [e|] eqn:Hr.
      * rewrite (listening_activation_throws c e (conj Hl Hs) Hr).
        rewrite after_stop_speech_calls. reflexivity.
      * rewrite (listening_activation_pending c (conj Hl Hs) Hr).
        reflexivity.
    + left. split; [reflexivity|]. split; [reflexivity|].
      pose proof (idle_activation_step c (conj Hl Hs)) as H.
      destruct (Voice_start_reacts (platform c)) as [e|].
      * rewrite H. split; reflexivity.
      * rewrite (proj1 H). split; reflexivity.
Qed.

(** X7. While [isListening] is true a speech result changes nothing on the
    screen: the transcript area keeps showing "I'm listening...".  The
    transcript appears when [onSpeechEnd] fires: the area then shows
    [recognizedText], or the placeholder if it is empty. *)
Theorem results_hidden_while_listening (c : Config)
    (e : SpeechResultsEvent) :
  isListening (store c) = true ->
  render (store (fst (step c (SpeechResults e)))) = render (store c) /\
  transcript (render (store c)) = "I'm listening..." /\
  transcript (render (store (fst (step c SpeechEnd)))) =
  (if truthy_string (recognizedText (store c))
   then recognizedText (store c)
   else "Tap the button to speak").
Proof.
  intros Hs. split; [|split].
  - destruct e as [[[|first later]|]].
    + rewrite speech_results_without_candidate by (right; reflexivity).
      reflexivity.
    + unfold render, transcriptText; simpl. rewrite Hs. reflexivity.
    + rewrite speech_results_without_candidate by (left; reflexivity).
      reflexivity.
  - unfold render, transcriptText; simpl. rewrite Hs. reflexivity.
  - reflexivity.
Qed.

Lemma results_hidden_while_listening_witness :
  transcript (render (store (fst (step listening_silent (heard ["hi"]))))) =
  "I'm listening..." /\
  transcript (render (store (fst (step listening_hi SpeechEnd)))) = "hi".
Proof.
  destruct (results_hidden_while_listening listening_silent
              {| results_value := Some ["hi"] |} eq_refl) as [H1 [H2 _]].
  destruct (results_hidden_while_listening listening_hi
              {| results_value := None |} eq_refl) as [_ [_ H3]].
  split.
  - change (heard ["hi"]) with (SpeechResults {| results_value := Some ["hi"] |}).
    rewrite H1. exact H2.
  - exact H3.
Defined.

(** ** A whole session *)

(** X8. One complete exchange, from any Idle controller with nothing
    pending: press, the recognizer starts and reports [t], press again, stop
    resolves, the session ends, the server answers with any status and a
    body that parses to [data], other than [null] and with a reply that is
    a valid child of [Text].  The controller ends Idle, showing the
    transcript [t] and the reply ([data.reply] if truthy, else the fallback),
    having made one Reply Capability call with [{message: t}]; the later
    candidates and whatever was shown before play no part. *)
Theorem whole_session (c : Config) (t : string) (later : list string)
    (response : Response) (data : value) :
  Idle (store c) ->
  pool c = [] ->
  platform c = calm ->
  t <> EmptyString ->
  json response = Pending ->
  data <> VNull ->
  renderable_settlement (Resolved data) = true ->
  exec c [Activation; StartSettled 0 (Resolved tt); heard (t :: later);
          Activation; StopSettled 0 (Resolved tt); SpeechEnd;
          FetchSettled 0 (Resolved response);
          JsonSettled 0 (Resolved data)] =
  ({| store := {| isLoading := false; isListening := false;
                  aiReply := js_or (reply_field data)
                                   (VString FALLBACK_REPLY);
                  recognizedText := t |};
      pool := []; platform := calm |},
   [SetRecognizedText EmptyString; SetAiReply (VString EmptyString);
    SetIsListening true; Voice_start "en-US";
    SetRecognizedText t; Voice_stop]
   ++ send_effects t
   ++ [SetIsListening false; Console_log "Speech listening has ended.";
       Response_json response;
       SetAiReply (js_or (reply_field data) (VString FALLBACK_REPLY));
       SetIsLoading false]).
Proof.
  intros [Hl Hs] Hp Hpf Ht Hj Hd _.
  destruct c as [[l li a rt] ts pf]. simpl in Hl, Hs, Hp, Hpf. subst.
  destruct t as [|ch t]; [contradiction|].
  destruct response as [code j]. simpl in Hj. subst j.
  destruct data; try contradiction; reflexivity.
Qed.

Lemma whole_session_witness :
  store (run mount [Activation; StartSettled 0 (Resolved tt);
                    heard ["I feel tired"; "I fell tired"];
                    Activation; StopSettled 0 (Resolved tt); SpeechEnd;
                    FetchSettled 0 (Resolved err500);
                    JsonSettled 0 (Resolved (replying "Rest well."))]) =
  {| isLoading := false; isListening := false;
     aiReply := VString "Rest well."; recognizedText := "I feel tired" |}.
Proof.
  assert (Hi : Idle (store mount)) by (split; reflexivity).
  assert (Ht : "I feel tired" <> EmptyString) by discriminate.
  assert (Hd : replying "Rest well." <> VNull) by discriminate.
  unfold run.
  rewrite (whole_session mount "I feel tired" ["I fell tired"] err500
             (replying "Rest well.") Hi eq_refl eq_refl Ht eq_refl Hd
             eq_refl).
  reflexivity.
Defined.

(** ** Unmount *)

(** X9. On unmount the cleanup first calls [Voice.destroy()].
    [Voice.removeAllListeners] is called exactly when [destroy] returns a
    promise and that promise resolves; if [destroy] throws or rejects, the
    listeners are not removed.  No failure is handled: the unmount is free
    of a thrown or unhandled error exactly when [destroy] resolves and
    [removeAllListeners] returns. *)
Theorem listeners_removed_only_if_destroy_resolves (destroy : reaction)
    (p : settled unit) (remove : option exn) :
  hd_error (unmount destroy p remove) = Some Voice_destroy /\
  (existsb is_removeAllListeners (unmount destroy p remove) = true <->
   destroy = Pending /\ p = Resolved tt) /\
  (existsb is_cleanup_failure (unmount destroy p remove) = false <->
   destroy = Pending /\ p = Resolved tt /\ remove = None).
Proof.
  split; [reflexivity|].
  destruct destroy as [e|]; destruct p as [e'|[]]; destruct remove as [e''|];
    simpl; split; split; try reflexivity; try discriminate;
    try (intros [H1 H2]; discriminate);
    try (intros [H1 [H2 H3]]; discriminate);
    try (split; reflexivity); try (repeat split; reflexivity).
Qed.

(** ** A result that arrives while stop is pending *)

Lemma heard_step (c : Config) (first : string) (later : list string) :
  step c (heard (first :: later)) =
  ({| store := with_text (store c) first; pool := pool c;
      platform := platform c |},
   [SetRecognizedText first]).
Proof.
  change (step c (heard (first :: later)))
    with (run_handler c (pool c) ([SetRecognizedText first], @Normal unit tt)).
  rewrite run_handler_normal. reflexivity.
Qed.

Lemma after_stop_keeps_text (c : Config) (rest : list task)
    (pre : list effect) (text : string) :
  recognizedText
    (store (fst (run_handler c rest
                   ((pre, Normal tt) ;;
                    handlePress_after_stop (platform c) text)))) =
  recognizedText (commit (store c) pre).
Proof.
  unfold handlePress_after_stop.
  destruct text as [|a s]; simpl.
  - rewrite !app_nil_r. reflexivity.
  - destruct (fetch_reacts (platform c)) as [e|] eqn:Hf.
    + rewrite (sendToServer_throws _ _ e Hf). simpl.
      unfold commit. rewrite !fold_left_app. reflexivity.
    + rewrite (sendToServer_pending _ _ Hf). simpl.
      unfold commit. rewrite !fold_left_app. reflexivity.
Qed.

(** X10. [handlePress] sends the transcript of the render it was created
    in.  If a result arrives after the press and before [Voice.stop()]
    settles, the new first candidate becomes [recognizedText] and is what the
    screen will show, but the Reply Capability is called with the old
    transcript, or not at all if the old transcript was empty. *)
Theorem late_result_is_shown_not_sent (c : Config) (late : string)
    (later : list string) (r : settled unit) :
  Listening (store c) ->
  Voice_stop_reacts (platform c) = Pending ->
  recognizedText
    (store (run c [Activation; heard (late :: later);
                   StopSettled (length (pool c)) r])) = late /\
  reply_calls
    (trace c [Activation; heard (late :: later);
              StopSettled (length (pool c)) r]) =
  (if truthy_string (recognizedText (store c))
   then [Fetch SERVER_URL (request (recognizedText (store c)))]
   else []).
Proof.
  intros HL Hr.
  pose proof (listening_activation_pending c HL Hr) as H1.
  set (c1 := {| store := store c;
                pool := pool c ++ [AwaitVoiceStop (recognizedText (store c))];
                platform := platform c |}) in *.
  pose proof (heard_step c1 late later) as H2.
  set (c2 := {| store := with_text (store c1) late; pool := pool c1;
                platform := platform c1 |}) in *.
  assert (H3 : step c2 (StopSettled (length (pool c)) r) =
               run_handler c2 (pool c)
                 ((stop_log r, Normal tt) ;;
                  handlePress_after_stop (platform c2)
                    (recognizedText (store c)))).
  { apply stop_settled_step. apply take_last. }
  assert (Hexec :
    exec c [Activation; heard (late :: later);
            StopSettled (length (pool c)) r] =
    (fst (step c2 (StopSettled (length (pool c)) r)),
     [Voice_stop; SetRecognizedText late]
     ++ snd (step c2 (StopSettled (length (pool c)) r)))).
  { rewrite exec_cons, H1. cbn [fst snd]. rewrite exec_cons, H2.
    cbn [fst snd]. rewrite exec_cons. cbn [exec fst snd].
    rewrite app_nil_r. reflexivity. }
  unfold run, trace. rewrite Hexec, H3. cbn [fst snd]. split.
  - rewrite after_stop_keeps_text. destruct r as [e|[]]; reflexivity.
  - unfold reply_calls. rewrite filter_app. cbn [filter is_fetch app].
    apply (after_stop_reply_calls c2 (pool c) (stop_log r)).
    destruct r as [e|[]]; reflexivity.
Qed.

Lemma late_result_is_shown_not_sent_witness :
  recognizedText
    (store (run listening_silent
              [Activation; heard ["hello world"];
               StopSettled 0 (Resolved tt)])) = "hello world" /\
  reply_calls
    (trace listening_silent
       [Activation; heard ["hello world"]; StopSettled 0 (Resolved tt)]) = [] /\
  reply_calls
    (trace listening_hi
       [Activation; heard ["hello world"]; StopSettled 0 (Resolved tt)]) =
  [Fetch SERVER_URL (request "hi")].
Proof.
  assert (HS : Listening (store listening_silent)) by (split; reflexivity).
  assert (HL : Listening (store listening_hi)) by (split; reflexivity).
  destruct (late_result_is_shown_not_sent listening_silent "hello world" []
              (Resolved tt) HS eq_refl) as [H1 H2].
  destruct (late_result_is_shown_not_sent listening_hi "hello world" []
              (Resolved tt) HL eq_refl) as [_ H3].
  split; [exact H1|]. split; [exact H2|exact H3].
Defined.
